(** * Phase 4A route-rewriting scripts: a shallow embedding and its properties

    The two scripts [apps/api/scripts/apply-phase-4a-changes.py] and
    [apps/api/scripts/apply-phase-4a-complete.py] each read one TypeScript
    file, rewrite it with a fixed sequence of [re.sub] calls, and write it
    back.  This development embeds

    - the part of Python's [re] module those calls use: the pattern compiler
      (for the syntax the scripts use), the backtracking matcher with its
      greedy and lazy quantifiers and capture groups, the left-to-right scan
      of [re.sub]/[re.subn] with its [count] limit, and the replacement
      template compiler with its escape and group-reference rules;
    - both [update_divisions_file] functions, one [re.sub] per statement;
    - both [main] functions, over a small model of the file system and of
      standard output, with explicit I/O failure points.

    A Python [str] is a sequence of code points: [text] below. *)

From Stdlib Require Import String Ascii List NArith Arith Bool Lia.
Import ListNotations.
Open Scope string_scope.
Open Scope list_scope.

(** ** Text *)

Definition text := list N.

(** A string literal of the source (all of them are ASCII) as a [str]. *)
Definition T (s : string) : text := map N_of_ascii (list_ascii_of_string s).

(** [c] is the single character [s]. *)
Definition is (c : N) (s : string) : bool :=
  match s with
  | String a _ => N.eqb c (N_of_ascii a)
  | EmptyString => false
  end.

Definition newline : N := 10.

(** [Py_UNICODE_ISSPACE], which [\s] tests for [str] patterns. *)
Definition is_space (c : N) : bool :=
  ((9 <=? c) && (c <=? 13))%N || ((28 <=? c) && (c <=? 32))%N
  || (c =? 133)%N || (c =? 160)%N || (c =? 5760)%N
  || ((8192 <=? c) && (c <=? 8202))%N
  || (c =? 8232)%N || (c =? 8233)%N || (c =? 8239)%N || (c =? 8287)%N
  || (c =? 12288)%N.

Definition is_digit (c : N) : bool := ((48 <=? c) && (c <=? 57))%N.
Definition is_octdigit (c : N) : bool := ((48 <=? c) && (c <=? 55))%N.
Definition is_ascii_letter (c : N) : bool :=
  ((65 <=? c) && (c <=? 90))%N || ((97 <=? c) && (c <=? 122))%N.
Definition digit_val (c : N) : nat := N.to_nat (c - 48).

(** Python's [str[a:b]] for [0 <= a <= b]. *)
Definition slice (s : text) (a b : nat) : text := firstn (b - a) (skipn a s).

(** ** Errors raised by [re] *)

Inductive re_error : Type :=
  | PatternError            (* re.compile rejects the pattern *)
  | BadTemplateEscape       (* "bad escape" in the replacement *)
  | InvalidGroupReference (n : nat)   (* "invalid group reference n" *)
  | UnknownGroupName.       (* \g<name> with no such group *)

Inductive result (A : Type) : Type :=
  | Ok (a : A)
  | Err (e : re_error).
Arguments Ok {A} a.
Arguments Err {A} e.

Definition bind {A B : Type} (x : result A) (f : A -> result B) : result B :=
  match x with
  | Ok a => f a
  | Err e => Err e
  end.

Notation "x <- e1 ;; e2" := (bind e1 (fun x => e2))
  (at level 61, e1 at next level, right associativity).

(** ** Regular expressions *)

Record flags := mkFlags { f_multiline : bool; f_dotall : bool }.
Definition noflags := mkFlags false false.
Definition MULTILINE := mkFlags true false.
Definition MULTILINE_DOTALL := mkFlags true true.
Definition DOTALL := mkFlags false true.

(** An item of a character class: a range of code points, or [\s]
    ([CSpace true]) or [\S] ([CSpace false]). *)
Inductive class_item : Type :=
  | CRange (lo hi : N)
  | CSpace (positive : bool).

Inductive regex : Type :=
  | REmpty
  | RLit (c : N)
  | RDot
  | RClass (negated : bool) (items : list class_item)
  | RBol
  | REol
  | RCat (r1 r2 : regex)
  | RAlt (r1 r2 : regex)
  | RGroup (n : nat) (r : regex)
  | RStar (greedy : bool) (r : regex)
  | ROpt (greedy : bool) (r : regex).

(** *** The pattern compiler

    A recursive-descent reading of [sre_parse] for the syntax the scripts
    use: literals, escaped punctuation, [\s], [\S], [\n]-style escapes, [.],
    [^], [$], classes [[...]], capturing groups [(...)] (numbered by their
    opening parenthesis), non-capturing groups [(?:...)], alternation and the
    quantifiers [*], [+], [?] with their lazy forms.  Syntax outside this
    subset (back-references, [\d], [\w], [{m,n}], look-around, named groups)
    is rejected, as is anything Python rejects.  [None] means rejected. *)

Definition class_escape (c : N) : option class_item :=
  if is c "s" then Some (CSpace true)
  else if is c "S" then Some (CSpace false)
  else None.

Definition char_escape (c : N) : option N :=
  if is c "n" then Some 10%N
  else if is c "t" then Some 9%N
  else if is c "r" then Some 13%N
  else if is c "f" then Some 12%N
  else if is c "v" then Some 11%N
  else if is c "a" then Some 7%N
  else if is_ascii_letter c || is_digit c then None
  else Some c.

(** One element of a class: a plain character or an escape. *)
Inductive class_atom := CAChar (c : N) | CAItem (it : class_item).

Definition p_class_atom (c : N) (s : text) : option (class_atom * text) :=
  if is c "\" then
    match s with
    | [] => None
    | e :: s' =>
        match class_escape e with
        | Some it => Some (CAItem it, s')
        | None =>
            if is e "b" then Some (CAChar 8%N, s')
            else match char_escape e with
                 | Some x => Some (CAChar x, s')
                 | None => None
                 end
        end
    end
  else Some (CAChar c, s).

Fixpoint p_class_items (f : nat) (first : bool) (s : text) (acc : list class_item)
  : option (list class_item * text) :=
  match f with
  | O => None
  | S f =>
      match s with
      | [] => None
      | c :: s1 =>
          if is c "]" && negb first then Some (rev acc, s1)
          else
            match p_class_atom c s1 with
            | None => None
            | Some (CAItem it, s2) => p_class_items f false s2 (it :: acc)
            | Some (CAChar a, s2) =>
                match s2 with
                | d :: e :: s3 =>
                    if is d "-" && negb (is e "]") then
                      match p_class_atom e s3 with
                      | Some (CAChar b, s4) =>
                          if (a <=? b)%N then p_class_items f false s4 (CRange a b :: acc)
                          else None
                      | _ => None
                      end
                    else p_class_items f false s2 (CRange a a :: acc)
                | _ => p_class_items f false s2 (CRange a a :: acc)
                end
            end
      end
  end.

(** The class after its [[]: negation, then its items. *)
Definition p_class (s : text) : option (regex * text) :=
  let '(neg, s') := match s with
                    | c :: s' => if is c "^" then (true, s') else (false, s)
                    | [] => (false, s)
                    end in
  match p_class_items (S (length s')) true s' [] with
  | Some (its, rest) => Some (RClass neg its, rest)
  | None => None
  end.

(** [{] opens a repetition [{m,n}] when a digit or a comma follows. *)
Definition opens_repeat (s : text) : bool :=
  match s with
  | c :: _ => is_digit c || is c ","
  | [] => false
  end.

Definition is_quantifier (c : N) : bool := is c "*" || is c "+" || is c "?".

(** Result of a parsing function: the expression, the rest of the pattern,
    the number of capturing groups opened so far. *)
Definition presult := option (regex * text * nat).

Fixpoint p_alt (f : nat) (s : text) (g : nat) {struct f} : presult :=
  match f with
  | O => None
  | S f =>
      match p_seq f s g with
      | Some (r, c :: s', g') =>
          if is c "|" then
            match p_alt f s' g' with
            | Some (r2, s'', g'') => Some (RAlt r r2, s'', g'')
            | None => None
            end
          else Some (r, c :: s', g')
      | res => res
      end
  end
with p_seq (f : nat) (s : text) (g : nat) {struct f} : presult :=
  match f with
  | O => None
  | S f =>
      match s with
      | [] => Some (REmpty, [], g)
      | c :: _ =>
          if is c "|" || is c ")" then Some (REmpty, s, g)
          else
            match p_piece f s g with
            | Some (r, s', g') =>
                match p_seq f s' g' with
                | Some (r2, s'', g'') => Some (RCat r r2, s'', g'')
                | None => None
                end
            | None => None
            end
      end
  end
with p_piece (f : nat) (s : text) (g : nat) {struct f} : presult :=
  match f with
  | O => None
  | S f =>
      match p_atom f s g with
      | Some (r, q :: s', g') =>
          let mk := fun (greedy : bool) =>
            if is q "*" then RStar greedy r
            else if is q "+" then RCat r (RStar greedy r)
            else ROpt greedy r in
          if is_quantifier q then
            match s' with
            | l :: s'' => if is l "?" then Some (mk false, s'', g')
                          else Some (mk true, s', g')
            | [] => Some (mk true, s', g')
            end
          else if is q "{" && opens_repeat s' then None
          else Some (r, q :: s', g')
      | res => res
      end
  end
with p_atom (f : nat) (s : text) (g : nat) {struct f} : presult :=
  match f with
  | O => None
  | S f =>
      match s with
      | [] => None
      | c :: s1 =>
          if is c "(" then
            match s1 with
            | q :: k :: s2 =>
                if is q "?" then
                  if is k ":" then
                    match p_alt f s2 g with
                    | Some (r, e :: s3, g') => if is e ")" then Some (r, s3, g') else None
                    | _ => None
                    end
                  else None
                else
                  match p_alt f s1 (S g) with
                  | Some (r, e :: s3, g') => if is e ")" then Some (RGroup (S g) r, s3, g') else None
                  | _ => None
                  end
            | _ =>
                match p_alt f s1 (S g) with
                | Some (r, e :: s3, g') => if is e ")" then Some (RGroup (S g) r, s3, g') else None
                | _ => None
                end
            end
          else if is c "[" then
            match p_class s1 with
            | Some (r, s2) => Some (r, s2, g)
            | None => None
            end
          else if is c "." then Some (RDot, s1, g)
          else if is c "^" then Some (RBol, s1, g)
          else if is c "$" then Some (REol, s1, g)
          else if is_quantifier c then None
          else if is c "{" && opens_repeat s1 then None
          else if is c "\" then
            match s1 with
            | [] => None
            | e :: s2 =>
                if is e "s" then Some (RClass false [CSpace true], s2, g)
                else if is e "S" then Some (RClass false [CSpace false], s2, g)
                else match char_escape e with
                     | Some x => Some (RLit x, s2, g)
                     | None => None
                     end
            end
          else Some (RLit c, s1, g)
      end
  end.

(** [re.compile]: the expression and its number of capturing groups. *)
Definition compile (p : text) : option (regex * nat) :=
  match p_alt (4 * length p + 4) p 0 with
  | Some (r, [], g) => Some (r, g)
  | _ => None
  end.

(** *** The matcher

    A backtracking matcher in continuation-passing style, trying the
    alternatives in the order of [_sre]: the left branch of [|] first, one
    more iteration first for greedy quantifiers and one fewer first for lazy
    ones.  An iteration of [*] must consume input, so every loop ends; the
    loop budget [fuel] is one more than the length of the text. *)

Record mstate := mkM {
  m_pos : nat;                        (* offset in the subject *)
  m_prev : option N;                  (* the character before [m_pos] *)
  m_rest : text;                      (* the subject from [m_pos] on *)
  m_caps : nat -> option (nat * nat)  (* span of each group *)
}.

Definition advance (st : mstate) (c : N) (rest : text) : mstate :=
  mkM (S (m_pos st)) (Some c) rest (m_caps st).

Definition set_cap (n start : nat) (st : mstate) : mstate :=
  mkM (m_pos st) (m_prev st) (m_rest st)
      (fun i => if Nat.eqb i n then Some (start, m_pos st) else m_caps st i).

Definition class_item_match (c : N) (it : class_item) : bool :=
  match it with
  | CRange lo hi => ((lo <=? c) && (c <=? hi))%N
  | CSpace b => Bool.eqb (is_space c) b
  end.

Definition at_bol (fl : flags) (st : mstate) : bool :=
  match m_prev st with
  | None => Nat.eqb (m_pos st) 0
  | Some p => Nat.eqb (m_pos st) 0 || (f_multiline fl && (p =? newline)%N)
  end.

Definition at_eol (fl : flags) (st : mstate) : bool :=
  match m_rest st with
  | [] => true
  | [c] => (c =? newline)%N
  | c :: _ => f_multiline fl && (c =? newline)%N
  end.

Fixpoint m (fl : flags) (fuel : nat) (r : regex) (st : mstate)
         (k : mstate -> option mstate) {struct r} : option mstate :=
  match r with
  | REmpty => k st
  | RLit c =>
      match m_rest st with
      | x :: xs => if (x =? c)%N then k (advance st x xs) else None
      | [] => None
      end
  | RDot =>
      match m_rest st with
      | x :: xs => if f_dotall fl || negb (x =? newline)%N then k (advance st x xs) else None
      | [] => None
      end
  | RClass neg its =>
      match m_rest st with
      | x :: xs => if xorb neg (existsb (class_item_match x) its) then k (advance st x xs)
                   else None
      | [] => None
      end
  | RBol => if at_bol fl st then k st else None
  | REol => if at_eol fl st then k st else None
  | RCat r1 r2 => m fl fuel r1 st (fun st1 => m fl fuel r2 st1 k)
  | RAlt r1 r2 =>
      match m fl fuel r1 st k with
      | Some x => Some x
      | None => m fl fuel r2 st k
      end
  | RGroup n r1 => m fl fuel r1 st (fun st1 => k (set_cap n (m_pos st) st1))
  | ROpt greedy r1 =>
      if greedy then
        match m fl fuel r1 st k with
        | Some x => Some x
        | None => k st
        end
      else
        match k st with
        | Some x => Some x
        | None => m fl fuel r1 st k
        end
  | RStar greedy r1 =>
      (fix loop (f : nat) (st0 : mstate) {struct f} : option mstate :=
         match f with
         | O => None
         | S f' =>
             if greedy then
               match m fl fuel r1 st0
                       (fun st1 => if Nat.ltb (m_pos st0) (m_pos st1) then loop f' st1 else None) with
               | Some x => Some x
               | None => k st0
               end
             else
               match k st0 with
               | Some x => Some x
               | None => m fl fuel r1 st0
                           (fun st1 => if Nat.ltb (m_pos st0) (m_pos st1) then loop f' st1 else None)
               end
         end) fuel st
  end.

Definition nocaps : nat -> option (nat * nat) := fun _ => None.

(** [search] from offset [pos]: the leftmost start at which the expression
    matches, and the first match there.  After an empty match the next
    search must advance ([must_advance] of [_sre]): an empty match at the
    same offset is refused there. *)
Fixpoint search_at (fl : flags) (fuel : nat) (r : regex) (must_advance : bool)
         (pos : nat) (prev : option N) (rest : text) {struct rest}
  : option (nat * mstate) :=
  match m fl fuel r (mkM pos prev rest nocaps)
          (fun st1 => if must_advance && Nat.eqb (m_pos st1) pos then None else Some st1) with
  | Some st1 => Some (pos, st1)
  | None =>
      match rest with
      | [] => None
      | c :: rest' => search_at fl fuel r false (S pos) (Some c) rest'
      end
  end.

(** A match: start, end, and the spans of the groups (group 0 included). *)
Record rmatch := mkMatch {
  mt_start : nat;
  mt_end : nat;
  mt_caps : nat -> option (nat * nat)
}.

(** The matching loop of [pattern_subx]: successive searches, each from the
    end of the previous match, at most [limit] of them when [limit] is
    positive ([count=0] means no limit).  [iter] bounds the loop. *)
Fixpoint scan (fl : flags) (fuel : nat) (r : regex) (limit iter n : nat)
         (must_advance : bool) (pos : nat) (prev : option N) (rest : text)
  : list rmatch :=
  match iter with
  | O => []
  | S it =>
      if Nat.eqb limit 0 || Nat.ltb n limit then
        match search_at fl fuel r must_advance pos prev rest with
        | None => []
        | Some (b, st1) =>
            mkMatch b (m_pos st1)
                    (fun i => if Nat.eqb i 0 then Some (b, m_pos st1) else m_caps st1 i)
              :: scan fl fuel r limit it (S n) (Nat.eqb (m_pos st1) b)
                      (m_pos st1) (m_prev st1) (m_rest st1)
        end
      else []
  end.

(** All matches of [r] in [s], at most [limit] if [limit] is positive. *)
Definition matches (fl : flags) (r : regex) (limit : nat) (s : text) : list rmatch :=
  scan fl (S (length s)) r limit (2 * length s + 2) 0 false 0 None s.

(** *** Replacement templates ([sre_parse.parse_template]) *)

Inductive tpiece : Type :=
  | TLit (t : text)
  | TRef (n : nat).

(** A group reference is refused when its number exceeds the pattern's
    number of groups. *)
Definition group_ref (groups n : nat) (k : list tpiece -> result (list tpiece))
  : result (list tpiece) :=
  if Nat.ltb groups n then Err (InvalidGroupReference n) else k [TRef n].

Definition octal_val (ds : list N) : nat :=
  fold_left (fun acc d => 8 * acc + digit_val d) ds 0.

Definition all_digits (s : text) : bool := forallb is_digit s.

Definition decimal_val (ds : list N) : nat :=
  fold_left (fun acc d => 10 * acc + digit_val d) ds 0.

(** [\g<...>]: the name up to [>]. *)
Fixpoint split_at_gt (s : text) (acc : text) : option (text * text) :=
  match s with
  | [] => None
  | c :: s' => if is c ">" then Some (rev acc, s') else split_at_gt s' (c :: acc)
  end.

Fixpoint p_template (groups : nat) (f : nat) (s : text) {struct f} : result (list tpiece) :=
  match f with
  | O => Ok []
  | S f =>
      let cont := fun (p : list tpiece) (s' : text) =>
                    bind (p_template groups f s') (fun ps => Ok (p ++ ps)) in
      match s with
      | [] => Ok []
      | c :: s1 =>
          if negb (is c "\") then cont [TLit [c]] s1
          else
            match s1 with
            | [] => Err BadTemplateEscape
            | e :: s2 =>
                if is e "g" then
                  match s2 with
                  | l :: s3 =>
                      if is l "<" then
                        match split_at_gt s3 [] with
                        | Some (name, s4) =>
                            if all_digits name && negb (Nat.eqb (length name) 0) then
                              group_ref groups (decimal_val name) (fun p => cont p s4)
                            else Err UnknownGroupName
                        | None => Err BadTemplateEscape
                        end
                      else Err BadTemplateEscape
                  | [] => Err BadTemplateEscape
                  end
                else if is e "0" then
                  match s2 with
                  | d1 :: d2 :: s3 =>
                      if is_octdigit d1 then
                        if is_octdigit d2 then
                          cont [TLit [N.of_nat (octal_val [d1; d2])]] s3
                        else cont [TLit [N.of_nat (octal_val [d1])]] (d2 :: s3)
                      else cont [TLit [0%N]] s2
                  | [d1] =>
                      if is_octdigit d1 then cont [TLit [N.of_nat (octal_val [d1])]] []
                      else cont [TLit [0%N]] s2
                  | [] => cont [TLit [0%N]] s2
                  end
                else if is_digit e then
                  match s2 with
                  | d :: s3 =>
                      if is_digit d then
                        match s3 with
                        | o :: s4 =>
                            if is_octdigit e && is_octdigit d && is_octdigit o then
                              if Nat.ltb 255 (octal_val [e; d; o]) then Err BadTemplateEscape
                              else cont [TLit [N.of_nat (octal_val [e; d; o])]] s4
                            else group_ref groups (decimal_val [e; d]) (fun p => cont p s3)
                        | [] => group_ref groups (decimal_val [e; d]) (fun p => cont p s3)
                        end
                      else group_ref groups (digit_val e) (fun p => cont p s2)
                  | [] => group_ref groups (digit_val e) (fun p => cont p s2)
                  end
                else if is e "a" then cont [TLit [7%N]] s2
                else if is e "b" then cont [TLit [8%N]] s2
                else if is e "f" then cont [TLit [12%N]] s2
                else if is e "n" then cont [TLit [10%N]] s2
                else if is e "r" then cont [TLit [13%N]] s2
                else if is e "t" then cont [TLit [9%N]] s2
                else if is e "v" then cont [TLit [11%N]] s2
                else if is e "\" then cont [TLit [92%N]] s2
                else if is_ascii_letter e then Err BadTemplateEscape
                else cont [TLit [c; e]] s2
            end
      end
  end.

Definition compile_template (groups : nat) (repl : text) : result (list tpiece) :=
  p_template groups (S (length repl)) repl.

(** [match.expand]: an unmatched group expands to the empty string. *)
Definition group_text (s : text) (caps : nat -> option (nat * nat)) (n : nat) : text :=
  match caps n with
  | Some (a, b) => slice s a b
  | None => []
  end.

Definition expand (tp : list tpiece) (s : text) (mt : rmatch) : text :=
  flat_map (fun p => match p with
                     | TLit t => t
                     | TRef n => group_text s (mt_caps mt) n
                     end) tp.

(** The text between the matches, each match replaced by its expansion. *)
Fixpoint splice (tp : list tpiece) (s : text) (i : nat) (ms : list rmatch) : text :=
  match ms with
  | [] => skipn i s
  | mt :: ms' => slice s i (mt_start mt) ++ expand tp s mt ++ splice tp s (mt_end mt) ms'
  end.

(** [re.subn(pattern, repl, string, count, flags)]: the pattern is compiled,
    then the template, then the matches are replaced. *)
Definition re_subn (pattern repl s : text) (count : nat) (fl : flags) : result (text * nat) :=
  match compile pattern with
  | None => Err PatternError
  | Some (r, groups) =>
      tp <- compile_template groups repl ;;
      let ms := matches fl r count s in
      Ok (splice tp s 0 ms, length ms)
  end.

(** [re.sub] returns the first component of [re.subn]. *)
Definition re_sub (pattern repl s : text) (count : nat) (fl : flags) : result text :=
  p <- re_subn pattern repl s count fl ;; Ok (fst p).

(** ** Rules and pipelines

    A rule is the data of one [re.sub] call of the scripts: the pattern, the
    replacement, [count] and [flags]. *)

Record rule := mkRule {
  r_pattern : text;
  r_repl : text;
  r_count : nat;
  r_flags : flags
}.

Definition apply_rule (r : rule) (content : text) : result text :=
  re_sub (r_pattern r) (r_repl r) content (r_count r) (r_flags r).

(** [content = re.sub(...)] repeated: each rule rewrites what the previous
    one returned; an exception ends the sequence. *)
Fixpoint run_rules (rs : list rule) (content : text) : result text :=
  match rs with
  | [] => Ok content
  | r :: rs' => content' <- apply_rule r content ;; run_rules rs' content'
  end.

(** The successive values of [content] during [run_rules], and how the
    sequence ended. *)
Fixpoint run_trace (rs : list rule) (content : text) : list text * result text :=
  match rs with
  | [] => ([content], Ok content)
  | r :: rs' =>
      match apply_rule r content with
      | Err e => ([content], Err e)
      | Ok content' =>
          let '(tr, res) := run_trace rs' content' in (content :: tr, res)
      end
  end.

(** ** Files and standard output

    The file system maps a path to the decoded contents of the file.  The
    world also records what was printed (one entry per [print]) and every
    [open] call, with its mode. *)

Definition path := string.

Inductive open_mode := ModeRead | ModeWrite.

Record world := mkWorld {
  files : path -> option text;
  stdout : list string;
  opened : list (path * open_mode)
}.

Definition set_file (w : world) (p : path) (t : text) : world :=
  mkWorld (fun q => if String.eqb q p then Some t else files w q) (stdout w) (opened w).

Definition print (w : world) (line : string) : world :=
  mkWorld (files w) (stdout w ++ [line]) (opened w).

Definition log_open (w : world) (p : path) (md : open_mode) : world :=
  mkWorld (files w) (stdout w) (opened w ++ [(p, md)]).

(** Where the operating system makes I/O fail in a run: reading an existing
    file (e.g. no permission), opening for writing (before anything is
    truncated), or writing, once [k] characters have reached the file. *)
Record faults := mkFaults {
  read_fails : bool;
  open_write_fails : bool;
  write_fails_after : option nat
}.

Definition no_faults := mkFaults false false None.

Inductive exc :=
  | FileNotFoundError
  | OSError
  | ReError (e : re_error)
  | SyntaxError.

(** How the interpreter ends: normally with an exit status, or with an
    uncaught exception (exit status 1, traceback on stderr). *)
Inductive status := Exit (code : nat) | Raised (e : exc).

Definition exit_code (st : status) : nat :=
  match st with
  | Exit c => c
  | Raised _ => 1
  end.

(** Text mode with [newline=None] (universal newlines): reading turns
    ["\r\n"] and a lone ["\r"] into ["\n"].  Writing turns ["\n"] into
    [os.linesep], which is ["\n"] on the Linux host of the hard-coded path,
    so a written text reaches the file as it is. *)
Fixpoint translate_newlines (s : text) : text :=
  match s with
  | [] => []
  | c :: s' =>
      if (c =? 13)%N then
        newline :: match s' with
                   | d :: s'' => if (d =? newline)%N then translate_newlines s''
                                 else translate_newlines s'
                   | [] => []
                   end
      else c :: translate_newlines s'
  end.

(** The text has no carriage return. *)
Definition no_cr (s : text) : bool := forallb (fun c => negb (c =? 13)%N) s.

(** [with open(p, 'r') as f: content = f.read()]. *)
Definition read_file (fl : faults) (w : world) (p : path) : world * option text * option exc :=
  let w := log_open w p ModeRead in
  match files w p with
  | None => (w, None, Some FileNotFoundError)
  | Some t => if read_fails fl then (w, None, Some OSError)
              else (w, Some (translate_newlines t), None)
  end.

(** [with open(p, 'w') as f: f.write(t)]: [open] with mode ['w'] truncates
    the file (O_TRUNC) before anything is written, then the characters
    reach the file in order. *)
Definition write_file (fl : faults) (w : world) (p : path) (t : text) : world * option exc :=
  let w := log_open w p ModeWrite in
  if open_write_fails fl then (w, Some OSError)
  else
    let w := set_file w p [] in
    match write_fails_after fl with
    | Some k => (set_file w p (firstn k t), Some OSError)
    | None => (set_file w p t, None)
    end.

Definition divisions_path : path :=
  "/home/piouser/eztourneyz/backend/apps/api/src/routes/divisions.ts".

Definition teams_path : path :=
  "/home/piouser/eztourneyz/backend/apps/api/src/routes/teams.ts".

(** ** [apply-phase-4a-changes.py] *)

Module Changes.

(** Pattern of the [re.sub] at line 14. *)
Definition header_pattern : text :=
  T "/\*\*\n \* Division CRUD endpoints\.\n \* Manages tournament divisions with full CRUD operations\.\n \*/".

Definition header_repl : text :=
  T "/**
 * Division CRUD endpoints (UPDATED - Phase 4A: Tournament Context).
 * All admin routes now require tournament context.
 *
 * Routes:
 * - POST   /tournaments/:tournamentId/divisions
 * - GET    /tournaments/:tournamentId/divisions
 * - GET    /tournaments/:tournamentId/divisions/:id
 * - PUT    /tournaments/:tournamentId/divisions/:id
 * - DELETE /tournaments/:tournamentId/divisions/:id
 * - POST   /tournaments/:tournamentId/divisions/:divisionId/generate-matches
 * - POST   /tournaments/:tournamentId/divisions/:divisionId/pools
 * - POST   /tournaments/:tournamentId/divisions/:divisionId/pools/bulk
 */".

(** Pattern of the [re.sub] at line 34. *)
Definition imports_pattern : text :=
  T "import \{ divisions, teams, pools, matches, players, court_assignments \} from '\.\./lib/db/schema\.js';".

Definition imports_repl : text :=
  T "import { tournaments, divisions, teams, pools, matches, players, court_assignments } from '../lib/db/schema.js';".

(** Pattern of the [re.sub] at line 66. *)
Definition schemas_pattern : text :=
  T "/\*\*\n \* Create division schema\.\n \*/".

(** Pattern of the [re.sub] at line 73. *)
Definition old_params_pattern : text :=
  T "/\*\*\n \* Division ID parameter schema\.\n \*/\nconst divisionParamsSchema = z\.object\(\{\n  id: z\.coerce\.number\(\)\.int\(\)\.positive\(\),\n\}\);\n\n".

(** The empty replacement ['']. *)
Definition old_params_repl : text := [].

(** Pattern of the [re.sub] at line 80. *)
Definition create_route_pattern : text :=
  T "fastify\.post<\{\s+Body: z\.infer<typeof createDivisionSchema>;\s+\}>'\('/divisions', \{".

Definition create_route_repl : text :=
  T "fastify.post<{
    Params: z.infer<typeof tournamentParamsSchema>;
    Body: z.infer<typeof createDivisionSchema>;
  }>('/tournaments/:tournamentId/divisions', {".

Definition new_schemas : text :=
  T "/**
 * Tournament ID parameter schema.
 */
const tournamentParamsSchema = z.object({
  tournamentId: z.coerce.number().int().positive(),
});

/**
 * Tournament + Division ID parameter schema.
 */
const tournamentDivisionParamsSchema = z.object({
  tournamentId: z.coerce.number().int().positive(),
  id: z.coerce.number().int().positive(),
});

/**
 * Division ID parameter schema (for generate-matches and pools).
 */
const divisionIdParamsSchema = z.object({
  tournamentId: z.coerce.number().int().positive(),
  divisionId: z.coerce.number().int().positive(),
});

".

(** The replacement of step 3: the new schemas, then the anchor again. *)
Definition schemas_repl : text :=
  new_schemas ++ T "/**
 * Create division schema.
 */".

Definition update_divisions_file (content : text) : result text :=
  (* 1. Update header comment *)
  content <- re_sub header_pattern header_repl content 0 noflags ;;
  (* 2. Update imports - add tournaments *)
  content <- re_sub imports_pattern imports_repl content 0 noflags ;;
  (* 3. Add new Zod schemas before createDivisionSchema *)
  content <- re_sub schemas_pattern schemas_repl content 0 noflags ;;
  (* 4. Remove old divisionParamsSchema *)
  content <- re_sub old_params_pattern old_params_repl content 0 noflags ;;
  (* 5. Update CREATE Division route *)
  content <- re_sub create_route_pattern create_route_repl content 0 MULTILINE ;;
  Ok content.

(** The five calls, in the order of the source. *)
Definition rules : list rule :=
  [ mkRule header_pattern header_repl 0 noflags;
    mkRule imports_pattern imports_repl 0 noflags;
    mkRule schemas_pattern schemas_repl 0 noflags;
    mkRule old_params_pattern old_params_repl 0 noflags;
    mkRule create_route_pattern create_route_repl 0 MULTILINE ].

(** [print("✅ divisions.ts updated successfully")]. *)
Definition success_line : string := "✅ divisions.ts updated successfully".

(** The body of [main()] (read, rewrite, write back, print), for a given
    rewriting function; [main] calls it with [update_divisions_file]. *)
Definition main_with (update : text -> result text) (fl : faults) (w : world)
  : world * status :=
  match read_file fl w divisions_path with
  | (w, _, Some e) => (w, Raised e)
  | (w, None, None) => (w, Raised OSError)
  | (w, Some divisions_content, None) =>
      match update divisions_content with
      | Err e => (w, Raised (ReError e))
      | Ok updated_content =>
          match write_file fl w divisions_path updated_content with
          | (w, Some e) => (w, Raised e)
          | (w, None) => (print w success_line, Exit 0)
          end
      end
  end.

Definition main (fl : faults) (w : world) : world * status :=
  main_with update_divisions_file fl w.

End Changes.

(** ** [apply-phase-4a-complete.py]

    The module does not compile: the f-strings of lines 234, 236, 383 and
    391 contain a single [}] (as in [}>('/tournaments/...']), which Python
    refuses with "SyntaxError: f-string: single '}' is not allowed".  Running
    the script therefore executes none of its statements: nothing is read,
    printed or written, and the interpreter exits with status 1. *)

Module Complete.

Definition run_script (fl : faults) (w : world) : world * status :=
  (w, Raised SyntaxError).

End Complete.

(** ** Observations used in the statements *)

(** The matches the [re.sub] of a rule replaces in [content]. *)
Definition rule_matches (r : rule) (content : text) : list rmatch :=
  match compile (r_pattern r) with
  | Some (re, _) => matches (r_flags r) re (r_count r) content
  | None => []
  end.

(** The pattern of the rule compiles, and so does its template. *)
Definition rule_compiles (r : rule) : bool :=
  match compile (r_pattern r) with
  | Some (_, groups) =>
      match compile_template groups (r_repl r) with
      | Ok _ => true
      | Err _ => false
      end
  | None => false
  end.

Fixpoint prefixb (p s : text) : bool :=
  match p, s with
  | [], _ => true
  | x :: p', y :: s' => (x =? y)%N && prefixb p' s'
  | _ :: _, [] => false
  end.

(** Number of offsets of [hay] at which [needle] starts. *)
Fixpoint occurrences (needle hay : text) : nat :=
  match hay with
  | [] => 0
  | _ :: hay' => (if prefixb needle hay then 1 else 0) + occurrences needle hay'
  end.

(** A world holding only the divisions file, with nothing printed or opened. *)
Definition world_with (content : text) : world :=
  mkWorld (fun q => if String.eqb q divisions_path then Some content else None) [] [].

(** The part of [opened] a run added. *)
Definition new_opens (w w' : world) : list (path * open_mode) :=
  skipn (length (opened w)) (opened w').

(** A [divisions.ts] fragment on which every rule of the changes script
    matches once. *)
Definition sample_divisions : text :=
  T "/**
 * Division CRUD endpoints.
 * Manages tournament divisions with full CRUD operations.
 */
import { divisions, teams, pools, matches, players, court_assignments } from '../lib/db/schema.js';

/**
 * Division ID parameter schema.
 */
const divisionParamsSchema = z.object({
  id: z.coerce.number().int().positive(),
});

/**
 * Create division schema.
 */
const createDivisionSchema = z.object({});

  fastify.post<{
    Body: z.infer<typeof createDivisionSchema>;
  }>'('/divisions', {
".

(** The rules of the changes script, by their step number. *)
Definition header_rule : rule := nth 0 Changes.rules (mkRule [] [] 0 noflags).
Definition imports_rule : rule := nth 1 Changes.rules (mkRule [] [] 0 noflags).

(** The import line that step 2 rewrites, and three copies of it. *)
Definition imports_line : text :=
  T "import { divisions, teams, pools, matches, players, court_assignments } from '../lib/db/schema.js';".

Definition three_imports : text :=
  imports_line ++ [newline] ++ imports_line ++ [newline] ++ imports_line ++ [newline].

(** The compiled pattern and template of step 2. *)
Definition imports_regex : regex :=
  match compile (r_pattern imports_rule) with
  | Some (re, _) => re
  | None => REmpty
  end.

Definition imports_template : list tpiece :=
  match compile_template 0 (r_repl imports_rule) with
  | Ok tp => tp
  | Err _ => []
  end.

(** The anchor of step 3 of the changes script. *)
Definition schema_anchor : text :=
  T "/**
 * Create division schema.
 */".

(** A rule whose template names group 2 of a pattern with one group. *)
Definition bad_rule : rule := mkRule (T "(a)") (T "\2") 0 noflags.

(** The double quote, which the pattern below contains. *)
Definition dq : string := String (ascii_of_nat 34) EmptyString.

(** [route\(['"](/widgets)['"]\)] *)
Definition widgets_pattern : text :=
  T (String.append "route\(['" (String.append dq (String.append "](/widgets)['"
       (String.append dq "]\)")))).

(** [route('/parents/:parentId\1')]: the prefix, then group 1. *)
Definition widgets_repl : text := T "route('/parents/:parentId\1')".

(** ** Literal parts of the compiled patterns

    A pattern made of escaped characters only compiles to a chain of
    [RLit]; a pattern that ends in such characters compiles to a chain of
    pieces followed by that literal chain. *)

Fixpoint lit_regex (L : text) : regex :=
  match L with
  | [] => REmpty
  | c :: L' => RCat (RLit c) (lit_regex L')
  end.

Fixpoint cat_list (ps : list regex) (tail : regex) : regex :=
  match ps with
  | [] => tail
  | p :: ps' => RCat p (cat_list ps' tail)
  end.

(** The pieces of a chain built by [p_seq]. *)
Fixpoint spine (r : regex) : list regex :=
  match r with
  | RCat a b => a :: spine b
  | REmpty => []
  | r => [r]
  end.

Definition compiled (p : text) : regex :=
  match compile p with
  | Some (r, _) => r
  | None => REmpty
  end.

(** The pieces of the compiled pattern [p] before its last [length L] ones. *)
Definition head_pieces (p L : text) : list regex :=
  let sp := spine (compiled p) in firstn (length sp - length L) sp.

(** The fixed text each step of the changes script looks for: the whole
    header comment, the import line, the comment before
    [createDivisionSchema], the old [divisionParamsSchema] block, and the
    end of the pattern of step 5 (with the quote between [>] and [(]). *)
Definition header_text : text :=
  T "/**
 * Division CRUD endpoints.
 * Manages tournament divisions with full CRUD operations.
 */".

Definition old_params_text : text :=
  T "/**
 * Division ID parameter schema.
 */
const divisionParamsSchema = z.object({
  id: z.coerce.number().int().positive(),
});

".

Definition create_route_tail : text := T "}>'('/divisions', {".

Definition anchors : list text :=
  [header_text; imports_line; schema_anchor; old_params_text; create_route_tail].

(** The state reached by matching the characters of [L] one by one. *)
Fixpoint adv_lit (st : mstate) (L : text) : mstate :=
  match L, m_rest st with
  | c :: L', x :: xs => adv_lit (advance st x xs) L'
  | _, _ => st
  end.

(** The offset of the first occurrence of [L] in [s]. *)
Fixpoint first_occ (L s : text) : option nat :=
  if prefixb L s then Some 0
  else
    match s with
    | [] => None
    | _ :: s' => option_map S (first_occ L s')
    end.

(** [str.replace(L, R)] for a non-empty [L]: scanning left to right, each
    occurrence of [L] that does not overlap an earlier replaced one becomes
    [R]; [skip] counts the characters of the current occurrence still to be
    dropped. *)
Fixpoint replace_acc (L R s : text) (skip : nat) : text :=
  match s with
  | [] => []
  | c :: s' =>
      match skip with
      | S k => replace_acc L R s' k
      | O =>
          if prefixb L s then R ++ replace_acc L R s' (pred (length L))
          else c :: replace_acc L R s' 0
      end
  end.

Definition str_replace (L R s : text) : text := replace_acc L R s 0.

(** The template of a replacement without backslash: its characters. *)
Definition tlits (R : text) : list tpiece := map (fun c => TLit [c]) R.

(** A Fastify declaration of the create route as TypeScript writes it,
    without a quote between [>] and [(]. *)
Definition fastify_create_route : text :=
  T "fastify.post<{
    Body: z.infer<typeof createDivisionSchema>;
  }>('/divisions', {".

(** [n] copies of [t], one after the other. *)
Fixpoint copies (n : nat) (t : text) : text :=
  match n with
  | O => []
  | S n' => copies n' t ++ t
  end.

(** The world after [n] fault-free runs of the changes script. *)
Fixpoint runs (n : nat) (w : world) : world :=
  match n with
  | O => w
  | S n' => fst (Changes.main no_faults (runs n' w))
  end.

(** The non-empty suffixes of [s]. *)
Fixpoint suffixes_ne (s : text) : list text :=
  match s with
  | [] => []
  | _ :: s' => s :: suffixes_ne s'
  end.

(** No occurrence of [L] starts inside [N], whatever text follows [N]. *)
Definition cross_free (L N : text) : bool :=
  forallb (fun a => if Nat.leb (length L) (length a) then negb (prefixb L a)
                    else negb (prefixb a L))
          (suffixes_ne N).

(** A file with Windows line ends in which no pattern occurs. *)
Definition crlf_text : text :=
  T "export default {};" ++ [13%N; newline] ++ T "export {};" ++ [13%N; newline].

(** Side conditions of the literal steps, settled by evaluation. *)
Ltac literal_side := first [ vm_compute; reflexivity
                           | let H := fresh in intro H; vm_compute in H; discriminate H ].

(** ** The engine *)

Lemma splice_no_match (tp : list tpiece) (s : text) : splice tp s 0 [] = s.
Proof. reflexivity. Qed.

Lemma re_subn_no_match (p t s : text) (c : nat) (fl : flags) (r : regex) (g : nat)
      (tp : list tpiece) :
  compile p = Some (r, g) -> compile_template g t = Ok tp -> matches fl r c s = [] ->
  re_subn p t s c fl = Ok (s, 0).
Proof.
  intros Hc Ht Hm. unfold re_subn. rewrite Hc, Ht. cbn [bind]. rewrite Hm. reflexivity.
Qed.

Lemma re_subn_ok (p t s : text) (c : nat) (fl : flags) (r : regex) (g : nat)
      (tp : list tpiece) :
  compile p = Some (r, g) -> compile_template g t = Ok tp ->
  re_subn p t s c fl = Ok (splice tp s 0 (matches fl r c s), length (matches fl r c s)).
Proof.
  intros Hc Ht. unfold re_subn. rewrite Hc, Ht. reflexivity.
Qed.

Lemma apply_rule_no_match (r : rule) (s : text) :
  rule_compiles r = true -> rule_matches r s = [] -> apply_rule r s = Ok s.
Proof.
  unfold rule_compiles, rule_matches, apply_rule, re_sub.
  destruct (compile (r_pattern r)) as [[re g]|] eqn:Hc; [|discriminate].
  destruct (compile_template g (r_repl r)) as [tp|e] eqn:Ht; [|discriminate].
  intros _ Hm. rewrite (re_subn_no_match _ _ _ _ _ re g tp Hc Ht Hm). reflexivity.
Qed.

Lemma apply_rule_compiles (r : rule) (s : text) :
  rule_compiles r = true -> exists s', apply_rule r s = Ok s'.
Proof.
  unfold rule_compiles, apply_rule, re_sub.
  destruct (compile (r_pattern r)) as [[re g]|] eqn:Hc; [|discriminate].
  destruct (compile_template g (r_repl r)) as [tp|e] eqn:Ht; [|discriminate].
  intros _. rewrite (re_subn_ok _ _ _ _ _ re g tp Hc Ht). eexists. reflexivity.
Qed.

Lemma run_rules_no_match (rs : list rule) (s : text) :
  Forall (fun r => rule_compiles r = true /\ rule_matches r s = []) rs ->
  run_rules rs s = Ok s.
Proof.
  induction 1 as [|r rs [Hc Hm] _ IH]; [reflexivity|].
  cbn [run_rules]. rewrite (apply_rule_no_match r s Hc Hm). exact IH.
Qed.

Lemma run_rules_compiles (rs : list rule) (s : text) :
  forallb rule_compiles rs = true -> exists s', run_rules rs s = Ok s'.
Proof.
  revert s. induction rs as [|r rs IH]; intros s H; [eexists; reflexivity|].
  cbn [forallb] in H. apply andb_prop in H as [Hr Hrs].
  destruct (apply_rule_compiles r s Hr) as [s1 Hs1].
  cbn [run_rules]. rewrite Hs1. exact (IH s1 Hrs).
Qed.

Lemma changes_update_is_run_rules (content : text) :
  Changes.update_divisions_file content = run_rules Changes.rules content.
Proof. reflexivity. Qed.

Lemma changes_rules_compile : forallb rule_compiles Changes.rules = true.
Proof. vm_compute. reflexivity. Qed.

(** ** [main] of the changes script *)

Lemma changes_main_ok (w : world) (content out : text) :
  files w divisions_path = Some content ->
  Changes.update_divisions_file (translate_newlines content) = Ok out ->
  Changes.main no_faults w =
    (print (set_file (set_file (log_open (log_open w divisions_path ModeRead)
                                         divisions_path ModeWrite)
                               divisions_path []) divisions_path out)
           Changes.success_line, Exit 0).
Proof.
  intros Hf Hu. unfold Changes.main, Changes.main_with, read_file, write_file.
  cbn [files log_open read_fails open_write_fails write_fails_after no_faults].
  rewrite Hf, Hu. reflexivity.
Qed.

(** What any run of the changes script prints: nothing, or the one
    success line. *)
Lemma changes_main_with_stdout (update : text -> result text) (fl : faults) (w : world) :
  stdout (fst (Changes.main_with update fl w)) = stdout w
  \/ stdout (fst (Changes.main_with update fl w)) = stdout w ++ [Changes.success_line].
Proof.
  unfold Changes.main_with, read_file, write_file.
  destruct (files (log_open w divisions_path ModeRead) divisions_path) as [c|];
    [|left; reflexivity].
  destruct (read_fails fl); [left; reflexivity|].
  destruct (update (translate_newlines c)) as [u|e]; [|left; reflexivity].
  destruct (open_write_fails fl); [left; reflexivity|].
  destruct (write_fails_after fl); [left|right]; reflexivity.
Qed.

(** Every [open] of a run of the changes script is on [divisions_path], and
    no other path changes. *)
Lemma changes_main_with_frame (update : text -> result text) (fl : faults) (w : world) :
  (forall q, q <> divisions_path -> files (fst (Changes.main_with update fl w)) q = files w q)
  /\ exists ops, opened (fst (Changes.main_with update fl w)) = opened w ++ ops
                 /\ Forall (fun o => fst o = divisions_path) ops.
Proof.
  assert (Hne : forall q, q <> divisions_path -> String.eqb q divisions_path = false)
    by (intros q Hq; apply String.eqb_neq; exact Hq).
  unfold Changes.main_with, read_file, write_file.
  destruct (files (log_open w divisions_path ModeRead) divisions_path) as [c|].
  2: { split; [reflexivity|]. eexists; split; [reflexivity|]. repeat constructor. }
  destruct (read_fails fl).
  { split; [reflexivity|]. eexists; split; [reflexivity|]. repeat constructor. }
  destruct (update (translate_newlines c)) as [u|e].
  2: { split; [reflexivity|]. eexists; split; [reflexivity|]. repeat constructor. }
  destruct (open_write_fails fl).
  { split; [reflexivity|]. eexists; split; [cbn; rewrite <- app_assoc; reflexivity|].
    repeat constructor. }
  destruct (write_fails_after fl) as [k|]; cbn.
  - split; [intros q Hq; rewrite !Hne by exact Hq; reflexivity|].
    eexists; split; [rewrite <- app_assoc; reflexivity|]. repeat constructor.
  - split; [intros q Hq; rewrite !Hne by exact Hq; reflexivity|].
    eexists; split; [rewrite <- app_assoc; reflexivity|]. repeat constructor.
Qed.

(** ** Matches of patterns with a literal part *)

Lemma m_inv (fl : flags) (fuel : nat) (r : regex) :
  forall st k x, m fl fuel r st k = Some x ->
  exists st1 pre, m_rest st = pre ++ m_rest st1 /\ k st1 = Some x.
Proof.
  induction r as [ | c | | neg its | | | r1 IH1 r2 IH2 | r1 IH1 r2 IH2 | n r1 IH
                 | g r1 IH | g r1 IH ]; intros st k x H; cbn [m] in H.
  - exists st, []. split; [reflexivity | exact H].
  - destruct (m_rest st) as [|y ys] eqn:E; [discriminate|].
    destruct (y =? c)%N; [|discriminate].
    exists (advance st y ys), [y]. split; [reflexivity | exact H].
  - destruct (m_rest st) as [|y ys] eqn:E; [discriminate|].
    destruct (f_dotall fl || negb (y =? newline)%N); [|discriminate].
    exists (advance st y ys), [y]. split; [reflexivity | exact H].
  - destruct (m_rest st) as [|y ys] eqn:E; [discriminate|].
    destruct (xorb neg (existsb (class_item_match y) its)); [|discriminate].
    exists (advance st y ys), [y]. split; [reflexivity | exact H].
  - destruct (at_bol fl st); [|discriminate]. exists st, []. split; [reflexivity | exact H].
  - destruct (at_eol fl st); [|discriminate]. exists st, []. split; [reflexivity | exact H].
  - destruct (IH1 _ _ _ H) as (st1 & pre1 & E1 & H1).
    destruct (IH2 _ _ _ H1) as (st2 & pre2 & E2 & H2).
    exists st2, (pre1 ++ pre2). rewrite E1, E2, app_assoc. split; [reflexivity | exact H2].
  - destruct (m fl fuel r1 st k) as [y|] eqn:E.
    + injection H as <-. exact (IH1 _ _ _ E).
    + exact (IH2 _ _ _ H).
  - destruct (IH _ _ _ H) as (st1 & pre & E & H1).
    exists (set_cap n (m_pos st) st1), pre. split; [exact E | exact H1].
  - match type of H with ?LOOP fuel st = Some x =>
      assert (Hl : forall f st0, LOOP f st0 = Some x ->
                   exists st1 pre, m_rest st0 = pre ++ m_rest st1 /\ k st1 = Some x);
      [| exact (Hl _ _ H)]
    end.
    induction f as [|f IHf]; intros st0 Hl; [discriminate|].
    simpl in Hl. destruct g.
    + destruct (m fl fuel r1 st0 _) as [y|] eqn:E.
      * injection Hl as <-.
        destruct (IH _ _ _ E) as (st1 & pre & E1 & H1).
        destruct (Nat.ltb (m_pos st0) (m_pos st1)); [|discriminate].
        destruct (IHf _ H1) as (st2 & pre2 & E2 & H2).
        exists st2, (pre ++ pre2). rewrite E1, E2, app_assoc. split; [reflexivity | exact H2].
      * exists st0, []. split; [reflexivity | exact Hl].
    + destruct (k st0) as [y|] eqn:Ek.
      * injection Hl as <-. exists st0, []. split; [reflexivity | exact Ek].
      * destruct (IH _ _ _ Hl) as (st1 & pre & E1 & H1).
        destruct (Nat.ltb (m_pos st0) (m_pos st1)); [|discriminate].
        destruct (IHf _ H1) as (st2 & pre2 & E2 & H2).
        exists st2, (pre ++ pre2). rewrite E1, E2, app_assoc. split; [reflexivity | exact H2].
  - destruct g.
    + destruct (m fl fuel r1 st k) as [y|] eqn:E.
      * injection H as <-. exact (IH _ _ _ E).
      * exists st, []. split; [reflexivity | exact H].
    + destruct (k st) as [y|] eqn:Ek.
      * injection H as <-. exists st, []. split; [reflexivity | exact Ek].
      * exact (IH _ _ _ H).
Qed.

Lemma m_lit_inv (fl : flags) (fuel : nat) (L : text) :
  forall st k x, m fl fuel (lit_regex L) st k = Some x -> exists b, m_rest st = L ++ b.
Proof.
  induction L as [|c L IH]; intros st k x H; [exists (m_rest st); reflexivity|].
  cbn [lit_regex m] in H.
  destruct (m_rest st) as [|y ys] eqn:E; [discriminate|].
  destruct (y =? c)%N eqn:Ey; [|discriminate].
  apply N.eqb_eq in Ey. subst y.
  destruct (IH _ _ _ H) as [b Hb]. exists b. cbn in Hb. rewrite Hb. reflexivity.
Qed.

Lemma m_cat_list_inv (fl : flags) (fuel : nat) (ps : list regex) (tail : regex) :
  forall st k x, m fl fuel (cat_list ps tail) st k = Some x ->
  exists st1 pre, m_rest st = pre ++ m_rest st1 /\ m fl fuel tail st1 k = Some x.
Proof.
  induction ps as [|p ps IH]; intros st k x H; [exists st, []; split; [reflexivity|exact H]|].
  cbn [cat_list m] in H.
  destruct (m_inv _ _ _ _ _ _ H) as (st1 & pre1 & E1 & H1).
  destruct (IH _ _ _ H1) as (st2 & pre2 & E2 & H2).
  exists st2, (pre1 ++ pre2). rewrite E1, E2, app_assoc. split; [reflexivity|exact H2].
Qed.

Lemma search_at_inv (fl : flags) (fuel : nat) (r : regex) (rest : text) :
  forall ma pos prev b st1, search_at fl fuel r ma pos prev rest = Some (b, st1) ->
  exists pre pos' prev' rest' k,
    rest = pre ++ rest' /\ m fl fuel r (mkM pos' prev' rest' nocaps) k = Some st1.
Proof.
  induction rest as [|c rest IH]; intros ma pos prev b st1 H; cbn [search_at] in H.
  - destruct (m fl fuel r _ _) as [y|] eqn:E; [|discriminate].
    injection H as <- <-. exists [], pos, prev, [], (fun st1 => if ma && Nat.eqb (m_pos st1) pos then None else Some st1).
    split; [reflexivity|exact E].
  - destruct (m fl fuel r _ _) as [y|] eqn:E.
    + injection H as <- <-. exists [], pos, prev, (c :: rest), (fun st1 => if ma && Nat.eqb (m_pos st1) pos then None else Some st1).
      split; [reflexivity|exact E].
    + destruct (IH _ _ _ _ _ H) as (pre & pos' & prev' & rest' & k & E1 & H1).
      exists (c :: pre), pos', prev', rest', k. rewrite E1. split; [reflexivity|exact H1].
Qed.

(** A rule whose compiled pattern ends in the literal chain of [L] finds a
    match only in a text that contains [L]. *)
Lemma rule_matches_contains (r : rule) (ps : list regex) (L : text) (g : nat) (s : text) :
  compile (r_pattern r) = Some (cat_list ps (lit_regex L), g) ->
  rule_matches r s <> [] -> exists a b, s = a ++ L ++ b.
Proof.
  intros Hc Hm. unfold rule_matches, matches in Hm. rewrite Hc in Hm.
  destruct (2 * length s + 2) as [|it] eqn:Eit; [lia|].
  cbn [scan] in Hm.
  destruct (Nat.eqb (r_count r) 0 || Nat.ltb 0 (r_count r)); [|contradiction].
  destruct (search_at _ _ _ _ _ _ _) as [[b st1]|] eqn:Es; [|contradiction].
  destruct (search_at_inv _ _ _ _ _ _ _ _ _ Es) as (pre & pos' & prev' & rest' & k & E1 & H1).
  destruct (m_cat_list_inv _ _ _ _ _ _ _ H1) as (st2 & pre2 & E2 & H2).
  destruct (m_lit_inv _ _ _ _ _ _ H2) as [b2 E3].
  exists (pre ++ pre2), b2. rewrite E1. cbn in E2. rewrite E2, E3, !app_assoc. reflexivity.
Qed.

Lemma prefixb_app (L b : text) : prefixb L (L ++ b) = true.
Proof. induction L as [|c L IH]; [reflexivity|]. cbn. rewrite N.eqb_refl. exact IH. Qed.

Lemma occurrences_contains (L a b : text) :
  L <> [] -> occurrences L (a ++ L ++ b) <> 0.
Proof.
  intros HL. induction a as [|c a IH].
  - destruct L as [|c L]; [contradiction|].
    pose proof (prefixb_app (c :: L) b) as Hp. cbn [app] in Hp |- *.
    cbn [occurrences]. rewrite Hp. cbn. discriminate.
  - cbn [app occurrences]. lia.
Qed.

(** The compiled patterns of the five steps, split at their anchors. *)
Lemma changes_rules_shape :
  Forall2 (fun r L => compile (r_pattern r)
                      = Some (cat_list (head_pieces (r_pattern r) L) (lit_regex L), 0))
          Changes.rules anchors.
Proof. repeat constructor; vm_compute; reflexivity. Qed.

Lemma rule_untouched_without_anchor (r : rule) (L : text) (s : text) :
  compile (r_pattern r) = Some (cat_list (head_pieces (r_pattern r) L) (lit_regex L), 0) ->
  rule_compiles r = true -> L <> [] -> occurrences L s = 0 -> apply_rule r s = Ok s.
Proof.
  intros Hc Hr HL Ho. apply apply_rule_no_match; [exact Hr|].
  destruct (rule_matches r s) as [|x xs] eqn:Em; [reflexivity|].
  exfalso. destruct (rule_matches_contains r _ L 0 s Hc) as (a & b & ->);
    [rewrite Em; discriminate|].
  exact (occurrences_contains L a b HL Ho).
Qed.

(** ** Steps with a literal pattern *)

Lemma m_lit (fl : flags) (fuel : nat) (L : text) :
  forall st k, m fl fuel (lit_regex L) st k
               = if prefixb L (m_rest st) then k (adv_lit st L) else None.
Proof.
  induction L as [|c L IH]; intros st k; [reflexivity|].
  cbn [lit_regex m adv_lit prefixb].
  destruct (m_rest st) as [|x xs]; [reflexivity|].
  rewrite N.eqb_sym. destruct (c =? x)%N; [|reflexivity].
  rewrite IH. reflexivity.
Qed.

Lemma prefixb_length (L s : text) : prefixb L s = true -> length L <= length s.
Proof.
  revert s. induction L as [|c L IH]; intros s H; [cbn; lia|].
  destruct s as [|x s]; [discriminate|]. cbn in H |- *.
  apply andb_prop in H as [_ H]. specialize (IH s H). lia.
Qed.

Lemma adv_lit_spec (L : text) :
  forall st, prefixb L (m_rest st) = true ->
  m_pos (adv_lit st L) = m_pos st + length L
  /\ m_rest (adv_lit st L) = skipn (length L) (m_rest st).
Proof.
  induction L as [|c L IH]; intros st H; [cbn; split; [lia|reflexivity]|].
  cbn [adv_lit]. cbn [prefixb] in H.
  destruct (m_rest st) as [|x xs]; [discriminate|].
  apply andb_prop in H as [_ H].
  destruct (IH (advance st x xs) H) as [Hp Hr].
  cbn [m_pos m_rest advance length] in Hp, Hr |- *. rewrite Hp, Hr.
  split; [lia|reflexivity].
Qed.

Lemma search_at_lit (fl : flags) (fuel : nat) (L : text) (HL : L <> []) :
  forall rest ma pos prev,
  match first_occ L rest with
  | None => search_at fl fuel (lit_regex L) ma pos prev rest = None
  | Some j => exists st1,
      search_at fl fuel (lit_regex L) ma pos prev rest = Some (pos + j, st1)
      /\ m_pos st1 = pos + j + length L
      /\ m_rest st1 = skipn (j + length L) rest
      /\ j + length L <= length rest
  end.
Proof.
  assert (HL0 : length L <> 0) by (destruct L; [contradiction|discriminate]).
  induction rest as [|c rest IH]; intros ma pos prev;
    cbn [search_at first_occ]; rewrite m_lit; cbn [m_rest m_pos].
  - destruct (prefixb L []) eqn:Hp; [|reflexivity].
    apply prefixb_length in Hp. cbn in Hp. lia.
  - destruct (prefixb L (c :: rest)) eqn:Hp.
    + destruct (adv_lit_spec L (mkM pos prev (c :: rest) nocaps) Hp) as [Hpos Hrest].
      cbn [m_pos m_rest] in Hpos, Hrest.
      assert (Hne : Nat.eqb (m_pos (adv_lit (mkM pos prev (c :: rest) nocaps) L)) pos = false)
        by (apply Nat.eqb_neq; lia).
      rewrite Hne, andb_false_r.
      exists (adv_lit (mkM pos prev (c :: rest) nocaps) L).
      rewrite Nat.add_0_r. split; [reflexivity|]. split; [exact Hpos|].
      split; [exact Hrest|]. apply prefixb_length in Hp. exact Hp.
    + specialize (IH false (S pos) (Some c)).
      destruct (first_occ L rest) as [j|]; cbn [option_map]; [|exact IH].
      destruct IH as (st1 & Es & Hpos & Hrest & Hlen).
      exists st1. rewrite Es. replace (S pos + j) with (pos + S j) by lia.
      split; [reflexivity|]. split; [lia|]. split; [exact Hrest|]. cbn. lia.
Qed.

Lemma replace_acc_skip (L R s : text) :
  forall k, replace_acc L R s k = replace_acc L R (skipn k s) 0.
Proof.
  induction s as [|c s IH]; intros k; [destruct k; reflexivity|].
  destruct k as [|k]; [reflexivity|]. cbn [replace_acc skipn]. apply IH.
Qed.

Lemma replace_first (L R : text) (HL : L <> []) :
  forall s,
  match first_occ L s with
  | None => str_replace L R s = s
  | Some j => str_replace L R s = firstn j s ++ R ++ str_replace L R (skipn (j + length L) s)
  end.
Proof.
  unfold str_replace.
  induction s as [|c s IH]; cbn [first_occ].
  - destruct L as [|x L]; [contradiction|]. reflexivity.
  - destruct (prefixb L (c :: s)) eqn:Hp.
    + cbn [replace_acc]. rewrite Hp, replace_acc_skip.
      destruct L as [|x L]; [contradiction|]. reflexivity.
    + destruct (first_occ L s) as [j|]; cbn [option_map replace_acc]; rewrite Hp, IH;
        reflexivity.
Qed.

Lemma expand_tlits (R s : text) (mt : rmatch) : expand (tlits R) s mt = R.
Proof.
  unfold expand, tlits. induction R as [|c R IH]; [reflexivity|].
  cbn [map flat_map app]. rewrite IH. reflexivity.
Qed.

Lemma splice_scan_lit (fl : flags) (fuel : nat) (L R : text) (HL : L <> []) :
  forall iter s i n ma prev, length (skipn i s) < iter ->
  splice (tlits R) s i (scan fl fuel (lit_regex L) 0 iter n ma i prev (skipn i s))
  = str_replace L R (skipn i s).
Proof.
  assert (HL0 : length L <> 0) by (destruct L; [contradiction|discriminate]).
  induction iter as [|it IH]; intros s i n ma prev Hlt; [lia|].
  cbn [scan Nat.eqb orb].
  pose proof (search_at_lit fl fuel L HL (skipn i s) ma i prev) as Hs.
  pose proof (replace_first L R HL (skipn i s)) as Hr.
  destruct (first_occ L (skipn i s)) as [j|].
  - destruct Hs as (st1 & Es & Hpos & Hrest & Hlen).
    rewrite Es, Hr. cbn [splice mt_start mt_end]. rewrite expand_tlits.
    unfold slice. replace (i + j - i) with j by lia.
    rewrite Hrest, Hpos, skipn_skipn. replace (j + length L + i) with (i + j + length L) by lia.
    rewrite IH; [reflexivity|].
    rewrite length_skipn in Hlt, Hlen |- *. lia.
  - rewrite Hs, Hr. reflexivity.
Qed.

(** A rule whose pattern compiles to the literal chain of [L] (not empty)
    and whose replacement has no backslash, used without [count], is
    [str.replace(L, repl)]. *)
Lemma apply_rule_literal (r : rule) (L s : text) :
  compile (r_pattern r) = Some (lit_regex L, 0) ->
  compile_template 0 (r_repl r) = Ok (tlits (r_repl r)) ->
  r_count r = 0 -> L <> [] ->
  apply_rule r s = Ok (str_replace L (r_repl r) s).
Proof.
  intros Hc Ht Hn HL. unfold apply_rule, re_sub.
  rewrite (re_subn_ok _ _ _ _ _ _ _ _ Hc Ht). cbn [bind fst].
  unfold matches. rewrite Hn.
  pose proof (splice_scan_lit (r_flags r) (S (length s)) L (r_repl r) HL
                              (2 * length s + 2) s 0 0 false None) as H.
  cbn [skipn] in H. rewrite H by lia. reflexivity.
Qed.

Lemma bind_ok {A : Type} (e : result A) : (x <- e ;; Ok x) = e.
Proof. destruct e; reflexivity. Qed.

Lemma anchors_nonempty : Forall (fun L => L <> []) anchors.
Proof. repeat constructor; intro H; vm_compute in H; discriminate H. Qed.

Lemma run_rules_untouched (rs : list rule) (Ls : list text) (s : text) :
  Forall2 (fun r L => compile (r_pattern r)
                      = Some (cat_list (head_pieces (r_pattern r) L) (lit_regex L), 0)) rs Ls ->
  forallb rule_compiles rs = true -> Forall (fun L => L <> []) Ls ->
  Forall (fun L => occurrences L s = 0) Ls -> run_rules rs s = Ok s.
Proof.
  induction 1 as [|r L rs Ls Hc _ IH]; intros Hr Hn Ho; [reflexivity|].
  cbn [forallb] in Hr. apply andb_prop in Hr as [Hr Hrs].
  inversion Hn as [|? ? HL Hn']; inversion Ho as [|? ? HoL Ho']; subst.
  cbn [run_rules]. rewrite (rule_untouched_without_anchor r L s Hc Hr HL HoL).
  exact (IH Hrs Hn' Ho').
Qed.

Lemma changes_update_chain (s : text) :
  Changes.update_divisions_file s
  = re_sub Changes.create_route_pattern Changes.create_route_repl
      (str_replace old_params_text Changes.old_params_repl
        (str_replace schema_anchor Changes.schemas_repl
          (str_replace imports_line Changes.imports_repl
            (str_replace header_text Changes.header_repl s)))) 0 MULTILINE.
Proof.
  assert (Hlit : forall P R L x, compile P = Some (lit_regex L, 0) ->
                 compile_template 0 R = Ok (tlits R) -> L <> [] ->
                 re_sub P R x 0 noflags = Ok (str_replace L R x))
    by (intros P R L x Hc Ht HL;
        exact (apply_rule_literal (mkRule P R 0 noflags) L x Hc Ht eq_refl HL)).
  unfold Changes.update_divisions_file.
  rewrite (Hlit _ _ header_text) by literal_side. cbn [bind].
  rewrite (Hlit _ _ imports_line) by literal_side. cbn [bind].
  rewrite (Hlit _ _ schema_anchor) by literal_side. cbn [bind].
  rewrite (Hlit _ _ old_params_text) by literal_side. cbn [bind].
  apply bind_ok.
Qed.

Lemma translate_newlines_id (s : text) : translate_newlines s = s <-> no_cr s = true.
Proof.
  unfold no_cr. induction s as [|c s IH]; [split; reflexivity|].
  cbn [translate_newlines forallb].
  destruct (c =? 13)%N eqn:Ec.
  - cbn [negb andb]. split; [|discriminate].
    intro H. injection H as H1 _. apply N.eqb_eq in Ec. subst c.
    unfold newline in H1. discriminate H1.
  - cbn [negb andb]. split.
    + intro H. injection H as H. apply IH. exact H.
    + intro H. rewrite (proj2 IH H). reflexivity.
Qed.

Lemma prefixb_app_inv (L a b : text) :
  prefixb L (a ++ b) = true ->
  (length L <= length a /\ prefixb L a = true) \/ (length a < length L /\ prefixb a L = true).
Proof.
  revert a. induction L as [|c L IH]; intros a H.
  - left. split; [cbn; lia | reflexivity].
  - destruct a as [|x a].
    + right. split; [cbn; lia | reflexivity].
    + cbn in H. apply andb_prop in H as [Hc H]. apply N.eqb_eq in Hc. subst x.
      cbn [prefixb length]. rewrite N.eqb_refl. cbn [andb].
      destruct (IH a H) as [[H1 H2]|[H1 H2]]; [left|right]; (split; [lia | exact H2]).
Qed.

Lemma check_prefix_false (L a b : text) :
  (if Nat.leb (length L) (length a) then negb (prefixb L a) else negb (prefixb a L)) = true ->
  prefixb L (a ++ b) = false.
Proof.
  intros H. destruct (prefixb L (a ++ b)) eqn:E; [|reflexivity].
  destruct (prefixb_app_inv L a b E) as [[H1 H2]|[H1 H2]].
  - apply Nat.leb_le in H1. rewrite H1, H2 in H. discriminate H.
  - assert (H3 : Nat.leb (length L) (length a) = false) by (apply Nat.leb_gt; exact H1).
    rewrite H3, H2 in H. discriminate H.
Qed.

Lemma str_replace_cross_free (L R N b : text) :
  cross_free L N = true -> str_replace L R (N ++ b) = N ++ str_replace L R b.
Proof.
  unfold cross_free, str_replace. induction N as [|c N IH]; intros H; [reflexivity|].
  cbn [suffixes_ne forallb] in H. apply andb_prop in H as [Hh Ht].
  pose proof (check_prefix_false L (c :: N) b Hh) as Hp. cbn [app] in Hp |- *.
  cbn [replace_acc]. rewrite Hp, (IH Ht). reflexivity.
Qed.

Lemma occurrences_cross_free (L N b : text) :
  cross_free L N = true -> occurrences L (N ++ b) = occurrences L b.
Proof.
  unfold cross_free. induction N as [|c N IH]; intros H; [reflexivity|].
  cbn [suffixes_ne forallb] in H. apply andb_prop in H as [Hh Ht].
  pose proof (check_prefix_false L (c :: N) b Hh) as Hp. cbn [app] in Hp |- *.
  cbn [occurrences]. rewrite Hp, (IH Ht). reflexivity.
Qed.

Lemma str_replace_copies (L R N : text) (n : nat) (b : text) :
  cross_free L N = true ->
  str_replace L R (copies n N ++ b) = copies n N ++ str_replace L R b.
Proof.
  intros H. revert b. induction n as [|n IH]; intros b; [reflexivity|].
  cbn [copies]. rewrite <- !app_assoc, IH, str_replace_cross_free by exact H. reflexivity.
Qed.

Lemma occurrences_copies (L N : text) (n : nat) (b : text) :
  cross_free L N = true -> occurrences L (copies n N ++ b) = occurrences L b.
Proof.
  intros H. revert b. induction n as [|n IH]; intros b; [reflexivity|].
  cbn [copies]. rewrite <- app_assoc, IH. apply occurrences_cross_free. exact H.
Qed.

Lemma no_cr_copies (N b : text) (n : nat) :
  no_cr N = true -> no_cr b = true -> no_cr (copies n N ++ b) = true.
Proof.
  unfold no_cr. intros HN Hb. revert b Hb. induction n as [|n IH]; intros b Hb; [exact Hb|].
  cbn [copies]. rewrite <- app_assoc. apply IH. rewrite forallb_app, HN, Hb. reflexivity.
Qed.

Lemma first_occ_some (L s : text) (j : nat) :
  first_occ L s = Some j -> prefixb L (skipn j s) = true.
Proof.
  revert j. induction s as [|c s IH]; intros j H; cbn [first_occ] in H.
  - destruct (prefixb L []) eqn:E; [injection H as <-; exact E | discriminate].
  - destruct (prefixb L (c :: s)) eqn:E; [injection H as <-; exact E|].
    destruct (first_occ L s) as [j'|]; [|discriminate].
    injection H as <-. exact (IH j' eq_refl).
Qed.

Lemma first_occ_none (L s : text) : first_occ L s = None -> occurrences L s = 0.
Proof.
  induction s as [|c s IH]; intros H; [reflexivity|].
  cbn [first_occ] in H. cbn [occurrences].
  destruct (prefixb L (c :: s)); [discriminate|].
  destruct (first_occ L s); [discriminate|]. rewrite IH; reflexivity.
Qed.

Lemma prefixb_split (L x : text) : prefixb L x = true -> x = L ++ skipn (length L) x.
Proof.
  revert x. induction L as [|c L IH]; intros x H; [reflexivity|].
  destruct x as [|y x]; [discriminate|]. cbn in H. apply andb_prop in H as [Hc H].
  apply N.eqb_eq in Hc. subst y. cbn [app length skipn]. rewrite <- (IH x H). reflexivity.
Qed.

(** One run of the update on [n] copies of the new schemas followed by the
    [Create division schema] comment gives [n + 1] copies before it. *)
Lemma update_copies (n : nat) :
  Changes.update_divisions_file (copies n Changes.new_schemas ++ schema_anchor)
  = Ok (copies (S n) Changes.new_schemas ++ schema_anchor).
Proof.
  rewrite changes_update_chain.
  rewrite !str_replace_copies by (vm_compute; reflexivity).
  assert (E1 : str_replace header_text Changes.header_repl schema_anchor = schema_anchor)
    by (vm_compute; reflexivity).
  assert (E2 : str_replace imports_line Changes.imports_repl schema_anchor = schema_anchor)
    by (vm_compute; reflexivity).
  assert (E3 : str_replace schema_anchor Changes.schemas_repl schema_anchor
               = Changes.new_schemas ++ schema_anchor)
    by (vm_compute; reflexivity).
  assert (E4 : str_replace old_params_text Changes.old_params_repl schema_anchor = schema_anchor)
    by (vm_compute; reflexivity).
  rewrite E1, E2, E3, str_replace_cross_free, E4, app_assoc by (vm_compute; reflexivity).
  change (copies n Changes.new_schemas ++ Changes.new_schemas)
    with (copies (S n) Changes.new_schemas).
  refine (rule_untouched_without_anchor
            (mkRule Changes.create_route_pattern Changes.create_route_repl 0 MULTILINE)
            create_route_tail _ _ _ _ _).
  - vm_compute. reflexivity.
  - vm_compute. reflexivity.
  - intro H. vm_compute in H. discriminate H.
  - rewrite occurrences_copies by (vm_compute; reflexivity). vm_compute. reflexivity.
Qed.

(** ** The claims *)

(** C1 (rules applied in sequence, in declaration order).  The
    [update_divisions_file] of the changes script is [run_rules] of its five
    [re.sub] calls listed in source order, and [run_rules] feeds each rule
    the text returned by the previous one, never the original input.  (The
    [update_divisions_file] of the complete script is never defined: that
    module does not compile, see [Complete.run_script].) *)
Theorem update_divisions_file_sequential :
  (forall content, Changes.update_divisions_file content = run_rules Changes.rules content)
  /\ (forall r rs content,
        run_rules (r :: rs) content = (content' <- apply_rule r content ;; run_rules rs content')).
Proof.
  split.
  - exact changes_update_is_run_rules.
  - intros r rs content. reflexivity.
Qed.

(** C4 (determinism and purity).  The rewritten file depends only on the
    text read: two fault-free runs from worlds holding the same
    [divisions.ts] write the same text, the value of
    [update_divisions_file] on the text read (the file with its line ends
    translated); the run changes no other file and prints its one line. *)
Theorem update_divisions_file_deterministic (w1 w2 : world) (content : text) :
  files w1 divisions_path = Some content ->
  files w2 divisions_path = Some content ->
  exists out,
    Changes.update_divisions_file (translate_newlines content) = Ok out
    /\ files (fst (Changes.main no_faults w1)) divisions_path = Some out
    /\ files (fst (Changes.main no_faults w2)) divisions_path = Some out
    /\ (forall q, q <> divisions_path -> files (fst (Changes.main no_faults w1)) q = files w1 q)
    /\ stdout (fst (Changes.main no_faults w1)) = stdout w1 ++ [Changes.success_line].
Proof.
  intros H1 H2.
  destruct (run_rules_compiles Changes.rules (translate_newlines content) changes_rules_compile)
    as [out Hout].
  rewrite <- changes_update_is_run_rules in Hout.
  exists out. rewrite (changes_main_ok w1 content out H1 Hout),
                      (changes_main_ok w2 content out H2 Hout).
  cbn [fst files print set_file log_open stdout].
  rewrite String.eqb_refl.
  split; [exact Hout|]. split; [reflexivity|]. split; [reflexivity|].
  split; [|reflexivity].
  intros q Hq. apply String.eqb_neq in Hq. rewrite Hq. reflexivity.
Qed.

Lemma update_divisions_file_deterministic_witness :
  exists out,
    Changes.update_divisions_file (translate_newlines sample_divisions) = Ok out
    /\ files (fst (Changes.main no_faults (world_with sample_divisions))) divisions_path = Some out
    /\ files (fst (Changes.main no_faults
                     (mkWorld (files (world_with sample_divisions)) ["earlier output"]
                              [(teams_path, ModeRead)]))) divisions_path = Some out
    /\ (forall q, q <> divisions_path ->
          files (fst (Changes.main no_faults (world_with sample_divisions))) q
          = files (world_with sample_divisions) q)
    /\ stdout (fst (Changes.main no_faults (world_with sample_divisions)))
       = stdout (world_with sample_divisions) ++ [Changes.success_line].
Proof.
  apply (update_divisions_file_deterministic (world_with sample_divisions)
           (mkWorld (files (world_with sample_divisions)) ["earlier output"]
                    [(teams_path, ModeRead)]) sample_divisions);
    vm_compute; reflexivity.
Defined.

(** C5 (capture-group substitution).  With the pattern
    [route\(['"](/widgets)['"]\)] and the template
    [route('/parents/:parentId\1')], which puts group 1 after the new
    prefix, [re.sub] turns [route('/widgets')] into
    [route('/parents/:parentId/widgets')]. *)
Theorem capture_group_substitution :
  re_sub widgets_pattern widgets_repl (T "route('/widgets')") 0 noflags
  = Ok (T "route('/parents/:parentId/widgets')").
Proof. vm_compute. reflexivity. Qed.

(** Python's templates name groups [\1] or [\g<1>]: with [$1] the template
    is copied as it is. *)
Remark dollar_template_is_literal :
  re_sub widgets_pattern (T "route('/parents/:parentId$1')") (T "route('/widgets')") 0 noflags
  = Ok (T "route('/parents/:parentId$1')").
Proof. vm_compute. reflexivity. Qed.

(** C2, counterexample: the report does not record whether a rule matched.
    The header rule (step 1) finds no match in an empty file and one match
    in [sample_divisions], yet the two runs print the same lines. *)
Lemma report_same_whether_rule_matches :
  rule_matches header_rule [] = []
  /\ rule_matches header_rule sample_divisions <> []
  /\ stdout (fst (Changes.main no_faults (world_with [])))
     = stdout (fst (Changes.main no_faults (world_with sample_divisions))).
Proof.
  split; [vm_compute; reflexivity|].
  split; [vm_compute; discriminate|].
  vm_compute. reflexivity.
Qed.

(** C2 (amended).  A rule whose pattern finds no match leaves the text as
    it is, and the sequence goes on with that text; no record of it is
    kept: whatever the rules matched, a run prints nothing or the one fixed
    success line. *)
Theorem non_matching_rule_keeps_text (r : rule) (rs : list rule) (content : text) :
  rule_compiles r = true ->
  rule_matches r content = [] ->
  apply_rule r content = Ok content
  /\ run_rules (r :: rs) content = run_rules rs content
  /\ (forall fl w,
        stdout (fst (Changes.main fl w)) = stdout w
        \/ stdout (fst (Changes.main fl w)) = stdout w ++ [Changes.success_line]).
Proof.
  intros Hc Hm.
  pose proof (apply_rule_no_match r content Hc Hm) as Ha.
  split; [exact Ha|]. split.
  - cbn [run_rules]. rewrite Ha. reflexivity.
  - intros fl w. exact (changes_main_with_stdout Changes.update_divisions_file fl w).
Qed.

Lemma non_matching_rule_keeps_text_witness :
  apply_rule header_rule [] = Ok []
  /\ run_rules (header_rule :: tl Changes.rules) [] = run_rules (tl Changes.rules) []
  /\ (forall fl w,
        stdout (fst (Changes.main fl w)) = stdout w
        \/ stdout (fst (Changes.main fl w)) = stdout w ++ [Changes.success_line]).
Proof.
  apply (non_matching_rule_keeps_text header_rule (tl Changes.rules) []);
    vm_compute; reflexivity.
Defined.

(** C3, counterexample: a run on a file in which no pattern occurs does not
    report zero matches: it prints what a run that rewrites the file prints. *)
Lemma no_match_run_prints_success :
  Forall (fun r => rule_matches r [] = []) Changes.rules
  /\ files (fst (Changes.main no_faults (world_with sample_divisions))) divisions_path
     <> Some sample_divisions
  /\ stdout (fst (Changes.main no_faults (world_with [])))
     = stdout (fst (Changes.main no_faults (world_with sample_divisions)))
  /\ stdout (fst (Changes.main no_faults (world_with []))) = [Changes.success_line].
Proof.
  split; [repeat constructor|].
  split; [vm_compute; discriminate|].
  split; vm_compute; reflexivity.
Qed.

(** C3 (amended).  When no rule's pattern occurs in a text, the changes
    script's [update_divisions_file] returns that text unchanged.  A run
    reads the file in text mode, so it sees the file with its line ends
    translated ([\r\n] and a lone [\r] become [\n]).  When no pattern
    occurs in that text, a fault-free run writes it back, exits with status
    0 and prints only the fixed success line (no match counts).  The file is
    therefore left textually identical exactly when it holds no carriage
    return; a file with [\r\n] line ends is written back with [\n]. *)
Theorem no_match_run_is_identity (w : world) (content : text) :
  files w divisions_path = Some content ->
  Forall (fun r => rule_matches r (translate_newlines content) = []) Changes.rules ->
  (forall t, Forall (fun r => rule_matches r t = []) Changes.rules ->
             Changes.update_divisions_file t = Ok t)
  /\ files (fst (Changes.main no_faults w)) divisions_path = Some (translate_newlines content)
  /\ (translate_newlines content = content <-> no_cr content = true)
  /\ exit_code (snd (Changes.main no_faults w)) = 0
  /\ stdout (fst (Changes.main no_faults w)) = stdout w ++ [Changes.success_line].
Proof.
  intros Hf Hno.
  assert (Hu : forall t, Forall (fun r => rule_matches r t = []) Changes.rules ->
                         Changes.update_divisions_file t = Ok t).
  { intros t Ht. rewrite changes_update_is_run_rules. apply run_rules_no_match.
    pose proof changes_rules_compile as Hc. rewrite forallb_forall in Hc.
    rewrite Forall_forall in Ht |- *. intros r Hr. split; [apply Hc | apply Ht]; exact Hr. }
  rewrite (changes_main_ok w content (translate_newlines content) Hf (Hu _ Hno)).
  cbn [fst snd files print set_file log_open stdout exit_code].
  rewrite String.eqb_refl.
  split; [exact Hu|]. split; [reflexivity|].
  split; [apply translate_newlines_id|]. split; reflexivity.
Qed.

Lemma no_match_run_is_identity_witness :
  (forall t, Forall (fun r => rule_matches r t = []) Changes.rules ->
             Changes.update_divisions_file t = Ok t)
  /\ files (fst (Changes.main no_faults (world_with crlf_text))) divisions_path
     = Some (translate_newlines crlf_text)
  /\ (translate_newlines crlf_text = crlf_text <-> no_cr crlf_text = true)
  /\ exit_code (snd (Changes.main no_faults (world_with crlf_text))) = 0
  /\ stdout (fst (Changes.main no_faults (world_with crlf_text)))
     = stdout (world_with crlf_text) ++ [Changes.success_line].
Proof.
  apply no_match_run_is_identity; [vm_compute; reflexivity|].
  repeat constructor; vm_compute; reflexivity.
Defined.

(** C6, counterexample: a write failure leaves a truncated file.  The
    divisions file holds [x]; the write fails before its first character
    reaches the disk; [open(..., 'w')] has already emptied the file. *)
Lemma write_failure_truncates :
  files (fst (Changes.main (mkFaults false false (Some 0)) (world_with (T "x")))) divisions_path
  = Some []
  /\ files (world_with (T "x")) divisions_path <> Some [].
Proof.
  split; [vm_compute; reflexivity | vm_compute; discriminate].
Qed.

Lemma skipn_length_app {A : Type} (l l' : list A) : skipn (length l) (l ++ l') = l'.
Proof. induction l as [|x l IH]; [reflexivity | exact IH]. Qed.

(** C6 (amended).  A run whose read fails (file missing, or reading raises)
    stops after that one [open] and changes no file; a run whose
    [open(..., 'w')] raises changes no file either; but the write is not
    atomic: once the file is opened for writing it is truncated, and a
    failure after [k] characters leaves exactly those [k] first characters
    of the new text in it. *)
Theorem io_failure_effects (fl : faults) (w : world) :
  ((files w divisions_path = None \/ read_fails fl = true) ->
     (forall q, files (fst (Changes.main fl w)) q = files w q)
     /\ new_opens w (fst (Changes.main fl w)) = [(divisions_path, ModeRead)])
  /\ (open_write_fails fl = true ->
        forall q, files (fst (Changes.main fl w)) q = files w q)
  /\ (forall content k,
        files w divisions_path = Some content ->
        read_fails fl = false -> open_write_fails fl = false ->
        write_fails_after fl = Some k ->
        exists out,
          Changes.update_divisions_file (translate_newlines content) = Ok out
          /\ files (fst (Changes.main fl w)) divisions_path = Some (firstn k out)
          /\ exit_code (snd (Changes.main fl w)) = 1).
Proof.
  unfold Changes.main, Changes.main_with, read_file, write_file, new_opens.
  cbn [files log_open opened].
  split; [|split].
  - intros [Hn | Hr].
    + rewrite Hn. split; [reflexivity|]. apply skipn_length_app.
    + destruct (files w divisions_path); [rewrite Hr|]; (split; [reflexivity|]);
        apply skipn_length_app.
  - intros Ho q.
    destruct (files w divisions_path) as [c|]; [|reflexivity].
    destruct (read_fails fl); [reflexivity|].
    destruct (Changes.update_divisions_file (translate_newlines c)); [|reflexivity].
    rewrite Ho. reflexivity.
  - intros content k Hf Hr Ho Hk.
    destruct (run_rules_compiles Changes.rules (translate_newlines content)
                                 changes_rules_compile) as [out Hout].
    rewrite <- changes_update_is_run_rules in Hout.
    exists out. rewrite Hf, Hr, Hout, Ho, Hk.
    cbn [fst snd files set_file exit_code]. rewrite String.eqb_refl.
    split; [reflexivity|]. split; reflexivity.
Qed.

Lemma io_failure_effects_witness :
  ((forall q, files (fst (Changes.main no_faults (mkWorld (fun _ => None) [] []))) q
              = files (mkWorld (fun _ => None) [] []) q)
   /\ new_opens (mkWorld (fun _ => None) [] [])
                (fst (Changes.main no_faults (mkWorld (fun _ => None) [] [])))
      = [(divisions_path, ModeRead)])
  /\ (forall q, files (fst (Changes.main (mkFaults false true None) (world_with (T "x")))) q
               = files (world_with (T "x")) q)
  /\ (exists out,
        Changes.update_divisions_file (translate_newlines sample_divisions) = Ok out
        /\ files (fst (Changes.main (mkFaults false false (Some 3)) (world_with sample_divisions)))
                 divisions_path = Some (firstn 3 out)
        /\ exit_code (snd (Changes.main (mkFaults false false (Some 3))
                                        (world_with sample_divisions))) = 1).
Proof.
  split; [|split].
  - apply (proj1 (io_failure_effects no_faults (mkWorld (fun _ => None) [] []))).
    left. reflexivity.
  - apply (proj1 (proj2 (io_failure_effects (mkFaults false true None) (world_with (T "x"))))).
    reflexivity.
  - apply (proj2 (proj2 (io_failure_effects (mkFaults false false (Some 3))
                                            (world_with sample_divisions))));
      vm_compute; reflexivity.
Defined.

(** C7, counterexample: re-running the changes script on its own output
    neither leaves it unchanged nor fails: starting from the
    [Create division schema] comment, the first run inserts the
    [tournamentParamsSchema] declaration once, the second run a second
    time. *)
Lemma rerun_inserts_schemas_again :
  exists o o2,
    Changes.update_divisions_file schema_anchor = Ok o
    /\ Changes.update_divisions_file o = Ok o2
    /\ o2 <> o
    /\ occurrences (T "const tournamentParamsSchema") o = 1
    /\ occurrences (T "const tournamentParamsSchema") o2 = 2.
Proof.
  exists (Changes.new_schemas ++ schema_anchor),
         (Changes.new_schemas ++ Changes.new_schemas ++ schema_anchor).
  assert (H1 : occurrences (T "const tournamentParamsSchema")
                 (Changes.new_schemas ++ schema_anchor) = 1)
    by (vm_compute; reflexivity).
  assert (H2 : occurrences (T "const tournamentParamsSchema")
                 (Changes.new_schemas ++ Changes.new_schemas ++ schema_anchor) = 2)
    by (vm_compute; reflexivity).
  split; [vm_compute; reflexivity|].
  split; [vm_compute; reflexivity|].
  split; [|split; [exact H1 | exact H2]].
  intros He. rewrite He in H2. rewrite H1 in H2. discriminate.
Qed.

(** C7 (amended).  Re-running is not idempotent.  On every text holding
    the [Create division schema] comment, step 3 inserts the three new
    parameter-schema declarations right before an occurrence of that comment
    and keeps the comment, so its output holds the comment again.  Starting
    from a file holding only the comment, after [n] fault-free runs the file
    holds the declarations [n] times followed by the comment, and every run
    exits with status 0: each further run inserts them once more. *)
Theorem rerun_is_not_idempotent :
  (forall t, occurrences schema_anchor t <> 0 ->
     exists a b, t = a ++ schema_anchor ++ b
       /\ re_sub Changes.schemas_pattern Changes.schemas_repl t 0 noflags
          = Ok (a ++ Changes.new_schemas ++ schema_anchor
                  ++ str_replace schema_anchor Changes.schemas_repl b))
  /\ (forall n, files (runs n (world_with schema_anchor)) divisions_path
                = Some (copies n Changes.new_schemas ++ schema_anchor)
        /\ snd (Changes.main no_faults (runs n (world_with schema_anchor))) = Exit 0).
Proof.
  assert (HA : schema_anchor <> []) by (intro H; vm_compute in H; discriminate H).
  assert (HR : Changes.schemas_repl = Changes.new_schemas ++ schema_anchor)
    by (vm_compute; reflexivity).
  assert (Hfile : forall n, files (runs n (world_with schema_anchor)) divisions_path
                            = Some (copies n Changes.new_schemas ++ schema_anchor)).
  { induction n as [|n IH].
    - unfold world_with. cbn [runs files copies app]. rewrite String.eqb_refl. reflexivity.
    - assert (Ht : translate_newlines (copies n Changes.new_schemas ++ schema_anchor)
                   = copies n Changes.new_schemas ++ schema_anchor).
      { apply translate_newlines_id. apply no_cr_copies; vm_compute; reflexivity. }
      cbn [runs]. rewrite (changes_main_ok _ _ _ IH (eq_trans (f_equal _ Ht) (update_copies n))).
      cbn [fst files print set_file]. rewrite String.eqb_refl. reflexivity. }
  split.
  - intros t Ht.
    destruct (first_occ schema_anchor t) as [j|] eqn:Ej;
      [|exfalso; exact (Ht (first_occ_none _ _ Ej))].
    pose proof (replace_first schema_anchor Changes.schemas_repl HA t) as Hr.
    rewrite Ej in Hr.
    pose proof (prefixb_split _ _ (first_occ_some _ _ _ Ej)) as Hs.
    rewrite skipn_skipn in Hs.
    exists (firstn j t), (skipn (j + length schema_anchor) t).
    split.
    + rewrite <- (firstn_skipn j t) at 1. rewrite Hs.
      replace (length schema_anchor + j) with (j + length schema_anchor) by lia. reflexivity.
    + refine (eq_trans (apply_rule_literal
                          (mkRule Changes.schemas_pattern Changes.schemas_repl 0 noflags)
                          schema_anchor t _ _ eq_refl HA) _).
      * vm_compute. reflexivity.
      * vm_compute. reflexivity.
      * cbn [r_repl]. rewrite Hr, HR, <- app_assoc. reflexivity.
  - intros n. split; [apply Hfile|].
    assert (Ht : translate_newlines (copies n Changes.new_schemas ++ schema_anchor)
                 = copies n Changes.new_schemas ++ schema_anchor).
    { apply translate_newlines_id. apply no_cr_copies; vm_compute; reflexivity. }
    rewrite (changes_main_ok _ _ _ (Hfile n) (eq_trans (f_equal _ Ht) (update_copies n))).
    reflexivity.
Qed.

Lemma rerun_is_not_idempotent_witness :
  occurrences schema_anchor sample_divisions <> 0
  /\ (exists a b, sample_divisions = a ++ schema_anchor ++ b
        /\ re_sub Changes.schemas_pattern Changes.schemas_repl sample_divisions 0 noflags
           = Ok (a ++ Changes.new_schemas ++ schema_anchor
                   ++ str_replace schema_anchor Changes.schemas_repl b))
  /\ files (runs 3 (world_with schema_anchor)) divisions_path
     = Some (copies 3 Changes.new_schemas ++ schema_anchor)
  /\ snd (Changes.main no_faults (runs 3 (world_with schema_anchor))) = Exit 0.
Proof.
  assert (H : occurrences schema_anchor sample_divisions <> 0) by (vm_compute; discriminate).
  split; [exact H|].
  split; [exact (proj1 rerun_is_not_idempotent sample_divisions H)|].
  exact (proj2 rerun_is_not_idempotent 3).
Defined.

(** C8, counterexample: the run does not report the number of occurrences.
    The import rule (step 2, no [count]) matches three times in
    [three_imports] and never in the empty file, and the two runs print the
    same lines. *)
Lemma occurrence_count_not_reported :
  length (rule_matches imports_rule three_imports) = 3
  /\ rule_matches imports_rule [] = []
  /\ stdout (fst (Changes.main no_faults (world_with three_imports)))
     = stdout (fst (Changes.main no_faults (world_with []))).
Proof.
  split; [|split]; vm_compute; reflexivity.
Qed.

(** C8 (amended).  [re.sub] with [count=0] replaces every match of its
    scan: when the scan finds exactly three matches, the result is the text
    with each of the three replaced by its expansion, and [re.subn] counts
    3.  [re.sub] drops that count and the scripts print no count: a run
    prints nothing or the fixed success line. *)
Theorem unlimited_rule_replaces_all (p t s : text) (fl : flags) (r : regex) (g : nat)
        (tp : list tpiece) :
  compile p = Some (r, g) ->
  compile_template g t = Ok tp ->
  length (matches fl r 0 s) = 3 ->
  re_subn p t s 0 fl = Ok (splice tp s 0 (matches fl r 0 s), 3)
  /\ (exists m1 m2 m3,
        matches fl r 0 s = [m1; m2; m3]
        /\ re_sub p t s 0 fl
           = Ok (slice s 0 (mt_start m1) ++ expand tp s m1
                 ++ slice s (mt_end m1) (mt_start m2) ++ expand tp s m2
                 ++ slice s (mt_end m2) (mt_start m3) ++ expand tp s m3
                 ++ skipn (mt_end m3) s))
  /\ (forall fl' w,
        stdout (fst (Changes.main fl' w)) = stdout w
        \/ stdout (fst (Changes.main fl' w)) = stdout w ++ [Changes.success_line]).
Proof.
  intros Hc Ht Hl.
  pose proof (re_subn_ok p t s 0 fl r g tp Hc Ht) as Hs.
  rewrite Hl in Hs.
  split; [exact Hs|]. split.
  - destruct (matches fl r 0 s) as [|m1 [|m2 [|m3 [|m4 ms]]]]; try discriminate Hl.
    exists m1, m2, m3. split; [reflexivity|].
    unfold re_sub. rewrite Hs. reflexivity.
  - intros fl' w. exact (changes_main_with_stdout Changes.update_divisions_file fl' w).
Qed.

Lemma unlimited_rule_replaces_all_witness :
  re_subn (r_pattern imports_rule) (r_repl imports_rule) three_imports 0 noflags
  = Ok (splice imports_template three_imports 0 (matches noflags imports_regex 0 three_imports), 3).
Proof.
  destruct (unlimited_rule_replaces_all (r_pattern imports_rule) (r_repl imports_rule)
              three_imports noflags imports_regex 0 imports_template)
    as [H _]; [vm_compute; reflexivity | vm_compute; reflexivity | vm_compute; reflexivity |].
  exact H.
Defined.

Lemma run_rules_failing_rule (pre post : list rule) (r : rule) (e : re_error) (content : text) :
  (forall x, apply_rule r x = Err e) ->
  exists e', run_rules (pre ++ r :: post) content = Err e'.
Proof.
  intros Hr. revert content. induction pre as [|r0 pre IH]; intros content.
  - exists e. cbn [app run_rules]. rewrite Hr. reflexivity.
  - cbn [app run_rules]. destruct (apply_rule r0 content) as [c1|e0]; cbn [bind].
    + exact (IH c1).
    + exists e0. reflexivity.
Qed.

(** C9, counterexample: the error is not raised before any text is
    rewritten.  In the sequence [imports_rule; bad_rule], [bad_rule] names
    a group its pattern lacks; the run rewrites the import line first and
    fails only when it reaches [bad_rule]. *)
Lemma group_error_after_earlier_rewrite :
  run_trace [imports_rule; bad_rule] imports_line
  = ([imports_line; r_repl imports_rule], Err (InvalidGroupReference 2))
  /\ r_repl imports_rule <> imports_line.
Proof.
  split; [vm_compute; reflexivity | vm_compute; discriminate].
Qed.

(** C9 (amended).  When a rule's template names a group its pattern does
    not have, its [re.sub] raises "invalid group reference" for every text,
    whether or not the pattern matches, before replacing anything; the
    literal template never reaches the output.  A sequence containing the
    rule never returns a text, and a run of the script stops before opening
    the file for writing, leaving every file as it was and exiting with
    status 1.  The error arises when the sequence reaches the rule, after
    the earlier rules have rewritten the text in memory. *)
Theorem bad_group_reference_fails (r : rule) (re : regex) (g n : nat) (pre post : list rule) :
  compile (r_pattern r) = Some (re, g) ->
  compile_template g (r_repl r) = Err (InvalidGroupReference n) ->
  (forall content, apply_rule r content = Err (InvalidGroupReference n))
  /\ (forall content, exists e, run_rules (pre ++ r :: post) content = Err e)
  /\ (forall fl w,
        (forall q, files (fst (Changes.main_with (run_rules (pre ++ r :: post)) fl w)) q
                   = files w q)
        /\ exit_code (snd (Changes.main_with (run_rules (pre ++ r :: post)) fl w)) = 1).
Proof.
  intros Hc Ht.
  assert (Ha : forall content, apply_rule r content = Err (InvalidGroupReference n)).
  { intros content. unfold apply_rule, re_sub, re_subn. rewrite Hc, Ht. reflexivity. }
  split; [exact Ha|]. split.
  - intros content. exact (run_rules_failing_rule pre post r _ content Ha).
  - intros fl w. unfold Changes.main_with, read_file. cbn [files log_open].
    destruct (files w divisions_path) as [c|]; [|split; reflexivity].
    destruct (read_fails fl); [split; reflexivity|].
    destruct (run_rules_failing_rule pre post r _ (translate_newlines c) Ha) as [e He].
    rewrite He. split; reflexivity.
Qed.

Lemma bad_group_reference_fails_witness :
  (forall content, apply_rule bad_rule content = Err (InvalidGroupReference 2))
  /\ (forall content, exists e, run_rules ([imports_rule] ++ bad_rule :: []) content = Err e)
  /\ (forall fl w,
        (forall q, files (fst (Changes.main_with (run_rules ([imports_rule] ++ bad_rule :: []))
                                                 fl w)) q = files w q)
        /\ exit_code (snd (Changes.main_with (run_rules ([imports_rule] ++ bad_rule :: [])) fl w))
           = 1).
Proof.
  apply (bad_group_reference_fails bad_rule
           (match compile (r_pattern bad_rule) with Some (re, _) => re | None => REmpty end)
           1 2 [imports_rule] []); vm_compute; reflexivity.
Defined.

(** Neither script opens or changes a file other than [divisions_path]; in
    particular [teams_path] keeps its contents. *)
Lemma scripts_touch_only_divisions (fl : faults) (w : world) :
  ((forall q, q <> divisions_path -> files (fst (Changes.main fl w)) q = files w q)
   /\ exists ops, opened (fst (Changes.main fl w)) = opened w ++ ops
                  /\ Forall (fun o => fst o = divisions_path) ops)
  /\ fst (Complete.run_script fl w) = w
  /\ files (fst (Changes.main fl w)) teams_path = files w teams_path.
Proof.
  destruct (changes_main_with_frame Changes.update_divisions_file fl w) as [Hf Ho].
  split; [split; [exact Hf | exact Ho]|]. split; [reflexivity|].
  apply Hf. intros H. discriminate H.
Qed.

(** C10 (each run reads and writes the divisions file and nothing else).
    Code bug: the complete script never reads or writes [divisions.ts].  Its
    f-strings at lines 234, 236, 383 and 391 contain a single [}], so the
    module does not compile; on a world holding [divisions.ts] the run
    changes nothing, opens nothing and exits with status 1. *)
Theorem complete_script_never_runs :
  Complete.run_script no_faults (world_with sample_divisions)
  = (world_with sample_divisions, Raised SyntaxError)
  /\ opened (fst (Complete.run_script no_faults (world_with sample_divisions))) = []
  /\ exit_code (snd (Complete.run_script no_faults (world_with sample_divisions))) = 1.
Proof.
  split; [|split]; reflexivity.
Qed.
(** ** Further properties of the changes script *)

(** X1.  Each of the five [re.sub] calls of [update_divisions_file] finds a
    match only in a text containing its anchor: the exact old header
    comment (step 1), the exact import line (step 2), the comment before
    [createDivisionSchema] (step 3), the exact old [divisionParamsSchema]
    block (step 4), and [}>'('/divisions', {] (step 5). *)
Theorem changes_steps_need_anchor (s : text) :
  Forall2 (fun r L => rule_matches r s <> [] -> exists a b, s = a ++ L ++ b)
          Changes.rules anchors.
Proof.
  pose proof changes_rules_shape as H.
  induction H as [|r L rs Ls Hc _ IH]; constructor; [|exact IH].
  exact (rule_matches_contains r _ L 0 s Hc).
Qed.

(** X2.  Step 5 leaves unchanged every text in which [}>'('/divisions', {] (a
    quote between [>] and [(]) does not occur; in particular a create route
    declared as [fastify.post<{ ... }>('/divisions', {] is never rewritten. *)
Theorem create_route_step_needs_quote (s : text) :
  occurrences create_route_tail s = 0 ->
  re_sub Changes.create_route_pattern Changes.create_route_repl s 0 MULTILINE = Ok s.
Proof.
  intros Ho.
  refine (rule_untouched_without_anchor
            (mkRule Changes.create_route_pattern Changes.create_route_repl 0 MULTILINE)
            create_route_tail s _ _ _ Ho).
  - vm_compute. reflexivity.
  - vm_compute. reflexivity.
  - intro H. vm_compute in H. discriminate H.
Qed.

Lemma create_route_step_needs_quote_witness :
  occurrences create_route_tail fastify_create_route = 0
  /\ re_sub Changes.create_route_pattern Changes.create_route_repl fastify_create_route 0
            MULTILINE = Ok fastify_create_route.
Proof.
  assert (H : occurrences create_route_tail fastify_create_route = 0)
    by (vm_compute; reflexivity).
  split; [exact H | exact (create_route_step_needs_quote fastify_create_route H)].
Defined.

(** X3.  [update_divisions_file] returns its input unchanged when none of the
    five anchors occurs in it. *)
Theorem changes_update_untouched_without_anchors (content : text) :
  Forall (fun L => occurrences L content = 0) anchors ->
  Changes.update_divisions_file content = Ok content.
Proof.
  intros Ho. rewrite changes_update_is_run_rules.
  exact (run_rules_untouched Changes.rules anchors content changes_rules_shape
                             changes_rules_compile anchors_nonempty Ho).
Qed.

Lemma changes_update_untouched_without_anchors_witness :
  Forall (fun L => occurrences L fastify_create_route = 0) anchors
  /\ Changes.update_divisions_file fastify_create_route = Ok fastify_create_route.
Proof.
  assert (H : Forall (fun L => occurrences L fastify_create_route = 0) anchors)
    by (repeat constructor; vm_compute; reflexivity).
  split; [exact H | exact (changes_update_untouched_without_anchors fastify_create_route H)].
Defined.

(** X4.  Steps 1 to 4 have patterns made of escaped characters only and
    replacements without backslash: each is [str.replace] of its exact
    anchor by its replacement (every non-overlapping occurrence, left to
    right), and [update_divisions_file] is these four replacements followed
    by the [re.sub] of step 5. *)
Theorem changes_update_as_str_replace (s : text) :
  Changes.update_divisions_file s
  = re_sub Changes.create_route_pattern Changes.create_route_repl
      (str_replace old_params_text Changes.old_params_repl
        (str_replace schema_anchor Changes.schemas_repl
          (str_replace imports_line Changes.imports_repl
            (str_replace header_text Changes.header_repl s)))) 0 MULTILINE.
Proof. exact (changes_update_chain s). Qed.

(** X5.  A run of the changes script without I/O fault on a world holding
    [divisions.ts] never raises: [update_divisions_file] returns a text
    (all five patterns and templates compile), the file then holds exactly
    that text, the success line is printed, and the exit status is 0.  The
    text rewritten is the one read, with its line ends translated. *)
Theorem changes_main_fault_free (w : world) (content : text) :
  files w divisions_path = Some content ->
  exists out,
    Changes.update_divisions_file (translate_newlines content) = Ok out
    /\ snd (Changes.main no_faults w) = Exit 0
    /\ files (fst (Changes.main no_faults w)) divisions_path = Some out
    /\ stdout (fst (Changes.main no_faults w)) = stdout w ++ [Changes.success_line].
Proof.
  intros Hf.
  destruct (run_rules_compiles Changes.rules (translate_newlines content) changes_rules_compile)
    as [out Hout].
  rewrite <- changes_update_is_run_rules in Hout.
  exists out. rewrite (changes_main_ok w content out Hf Hout).
  cbn [fst snd files stdout print set_file log_open]. rewrite String.eqb_refl.
  split; [exact Hout|]. split; [reflexivity|]. split; reflexivity.
Qed.

Lemma changes_main_fault_free_witness :
  files (world_with sample_divisions) divisions_path = Some sample_divisions
  /\ exists out,
       Changes.update_divisions_file (translate_newlines sample_divisions) = Ok out
       /\ snd (Changes.main no_faults (world_with sample_divisions)) = Exit 0
       /\ files (fst (Changes.main no_faults (world_with sample_divisions))) divisions_path
          = Some out
       /\ stdout (fst (Changes.main no_faults (world_with sample_divisions)))
          = stdout (world_with sample_divisions) ++ [Changes.success_line].
Proof.
  assert (H : files (world_with sample_divisions) divisions_path = Some sample_divisions)
    by (unfold world_with; cbn [files]; rewrite String.eqb_refl; reflexivity).
  split; [exact H | exact (changes_main_fault_free _ _ H)].
Defined.
